(** * BotCamp Medical: question ingestion and moderation pipeline

    A shallow embedding of the batch store ([services/multi_admin_service.py]),
    the candidate validator ([services/ai_question_parser.py]), the moderation
    scorer ([services/moderation.py]) and the review commit path
    ([handlers/admin.py], [handlers/moderation_handlers.py],
    [services/analytics_service.py]), with the properties of the pipeline
    stated and proved over it.

    Conventions.  Database tables are finite maps from the primary key to the
    row.  A [datetime] is the number of microseconds since an arbitrary
    epoch, a [timedelta] a difference of two such numbers.  A nullable column
    is an [option].  Python's [int] is [Z].  A [str] is a string of Latin-1
    characters, one [ascii] per code point below 256.  A [float] that is a
    number is the rational it denotes; the floats that are no numbers are
    named where a value may be one. *)

From Stdlib Require Import ZArith QArith Lqa String Ascii List Sorted Lia.
From stdpp Require Import gmap strings list fin_maps pretty.

Open Scope Z_scope.

(** ** Python strings *)

Module Py.

(** [str.isspace] on the Latin-1 range: TAB..CR, FS..US, space, NEL, NBSP. *)
Definition isspace (c : ascii) : bool :=
  let n := Z.of_nat (nat_of_ascii c) in
  ((9 <=? n) && (n <=? 13)) || ((28 <=? n) && (n <=? 32))
  || (n =? 133) || (n =? 160).

Fixpoint lstrip (s : string) : string :=
  match s with
  | EmptyString => EmptyString
  | String c r => if isspace c then lstrip r else s
  end.

(** [rstrip] drops the trailing run of white space: a character is kept when
    it is not white space or something after it is kept. *)
Fixpoint rstrip (s : string) : string :=
  match s with
  | EmptyString => EmptyString
  | String c r =>
      match rstrip r with
      | EmptyString => if isspace c then EmptyString else String c EmptyString
      | r' => String c r'
      end
  end.

Definition strip (s : string) : string := rstrip (lstrip s).

(** [str.upper] of one Latin-1 character: a to z and the letters from
    U+00E0 to U+00FE (without the division sign U+00F7) move down by 32, and
    the sharp s U+00DF becomes SS.  The upper-case forms of the micro sign
    U+00B5 and of U+00FF are U+039C and U+0178, which are no Latin-1
    characters: the two are left as they are, so that a string that holds
    one of them is, here as in Python, not one of the letters A to E. *)
Definition upper_char (c : ascii) : string :=
  let n := nat_of_ascii c in
  if (((97 <=? n) && (n <=? 122))
      || ((224 <=? n) && (n <=? 254) && negb (n =? 247)))%nat
  then String (ascii_of_nat (n - 32)) EmptyString
  else if (n =? 223)%nat then "SS"%string
  else String c EmptyString.

(** [str.lower] of one Latin-1 character: A to Z and the letters from
    U+00C0 to U+00DE (without the multiplication sign U+00D7) move up by
    32. *)
Definition lower_char (c : ascii) : ascii :=
  let n := nat_of_ascii c in
  if (((65 <=? n) && (n <=? 90))
      || ((192 <=? n) && (n <=? 222) && negb (n =? 215)))%nat
  then ascii_of_nat (n + 32) else c.

Fixpoint upper (s : string) : string :=
  match s with
  | EmptyString => EmptyString
  | String c r => (upper_char c ++ upper r)%string
  end.

Fixpoint lower (s : string) : string :=
  match s with
  | EmptyString => EmptyString
  | String c r => String (lower_char c) (lower r)
  end.

(** [s.endswith(c)] for a one-character suffix. *)
Fixpoint endswith_char (s : string) (c : ascii) : bool :=
  match s with
  | EmptyString => false
  | String a EmptyString => bool_decide (a = c)
  | String _ r => endswith_char r c
  end.

(** [x or y] on nullable strings: [None] and the empty string are falsy. *)
Definition str_truthy (o : option string) : bool :=
  match o with
  | Some s => negb (bool_decide (s = EmptyString))
  | None => false
  end.

Definition str_or (x y : option string) : option string :=
  if str_truthy x then x else y.

(** How an f-string renders a nullable string. *)
Definition format_str (o : option string) : string :=
  match o with
  | Some s => s
  | None => "None"
  end.

(** [x or 0] on a nullable integer column. *)
Definition int_or0 (o : option Z) : Z := default 0 o.

(** Truth value of a nullable integer: [None] and [0] are falsy. *)
Definition int_truthy (o : option Z) : bool :=
  match o with
  | Some n => negb (n =? 0)
  | None => false
  end.

End Py.

(** ** The tables ([database/models.py]) *)

Inductive BatchStatus := draft | review | approved | rejected.

Global Instance BatchStatus_eq_dec : EqDecision BatchStatus.
Proof. solve_decision. Defined.

(** [UploadBatch]; the primary key [batch_id] is the key of the table. *)
Record UploadBatch := mkUploadBatch {
  uploader_id : Z;
  status : BatchStatus;
  locked_by : option Z;
  locked_at : option Z;
  questions_count : Z;
  created_at : Z;
  completed_at : option Z
}.

(** [User]; the primary key [user_id] (the Telegram id) is the key. *)
Record User := mkUser {
  username : option string;
  first_name : option string;
  upload_count : option Z;
  approved_count : option Z;
  flagged_count : option Z;
  rejected_count : option Z;
  average_moderation_score : option Z
}.

(** [Question]; the primary key [question_id] is the key. *)
Record Question := mkQuestion {
  topic_id : option Z;
  question_text : string;
  option_a : string;
  option_b : string;
  option_c : string;
  option_d : string;
  correct_option : string;
  explanation : option string;
  source : option string;
  q_uploader_id : option Z;
  uploader_username : option string;
  q_created_at : Z;
  is_active : bool;
  moderation_score : option Z;
  moderation_comments : option string;
  moderated_by_ai : bool;
  needs_review : bool
}.

Record DB := mkDB {
  batches : gmap Z UploadBatch;
  users : gmap Z User;
  questions : gmap Z Question
}.

Definition set_batches (db : DB) (bs : gmap Z UploadBatch) : DB :=
  {| batches := bs; users := users db; questions := questions db |}.

Definition set_users (db : DB) (us : gmap Z User) : DB :=
  {| batches := batches db; users := us; questions := questions db |}.

Definition set_questions (db : DB) (qs : gmap Z Question) : DB :=
  {| batches := batches db; users := users db; questions := qs |}.

(** The key an auto-increment primary key gives the next row. *)
Definition next_id {A} (m : gmap Z A) : Z :=
  1 + map_fold (fun k _ acc => Z.max k acc) 0 m.

(** ** The batch store ([MultiAdminService]) *)

Module MultiAdminService.

Definition lock_timeout_minutes : Z := 15.

(** [timedelta.total_seconds() < secs] on a difference in microseconds. *)
Definition total_seconds_lt (delta secs : Z) : bool :=
  delta <? secs * 1000000.

(** [timedelta(minutes=m)] in microseconds. *)
Definition timedelta_minutes (m : Z) : Z := m * 60 * 1000000.

Record Result := mkResult { success : bool; message : string }.

Definition create_upload_batch (now uploader count : Z) (db : DB)
  : DB * option Z :=
  let id := next_id (batches db) in
  let batch :=
    {| uploader_id := uploader; status := draft; locked_by := None;
       locked_at := None; questions_count := count; created_at := now;
       completed_at := None |} in
  (set_batches db (<[id := batch]> (batches db)), Some id).

(** [locker.username or locker.first_name if locker else "Unknown"] *)
Definition locker_name (locker : option User) : string :=
  match locker with
  | Some u => Py.format_str (Py.str_or (username u) (first_name u))
  | None => "Unknown"
  end.

Definition being_reviewed_by : string :=
  "⚠️ This batch is currently being reviewed by @".

(** The two nested tests that guard the refusal. *)
Definition lock_conflict (now admin_id : Z) (batch : UploadBatch) : bool :=
  Py.int_truthy (locked_by batch)
  && negb (bool_decide (locked_by batch = Some admin_id))
  && match locked_at batch with
     | Some t =>
         total_seconds_lt (now - t) (lock_timeout_minutes * 60)
     | None => false
     end.

Definition lock_batch_for_review (now batch_id admin_id : Z) (db : DB)
  : DB * Result :=
  match batches db !! batch_id with
  | None => (db, {| success := false; message := "Batch not found" |})
  | Some batch =>
      if lock_conflict now admin_id batch then
        let locker :=
          match locked_by batch with
          | Some holder => users db !! holder
          | None => None
          end in
        (db, {| success := false;
                message := being_reviewed_by ++ locker_name locker |})
      else
        let batch' :=
          {| uploader_id := uploader_id batch; status := review;
             locked_by := Some admin_id; locked_at := Some now;
             questions_count := questions_count batch;
             created_at := created_at batch;
             completed_at := completed_at batch |} in
        (set_batches db (<[batch_id := batch']> (batches db)),
         {| success := true; message := "Batch locked for review" |})
  end.

(** Clearing the lock fields and going back to draft, as [unlock_batch] and
    the expiry sweep both do. *)
Definition release (batch : UploadBatch) : UploadBatch :=
  {| uploader_id := uploader_id batch; status := draft;
     locked_by := None; locked_at := None;
     questions_count := questions_count batch;
     created_at := created_at batch;
     completed_at := completed_at batch |}.

Definition unlock_batch (batch_id admin_id : Z) (db : DB) : DB * bool :=
  match batches db !! batch_id with
  | Some batch =>
      if bool_decide (locked_by batch = Some admin_id)
      then (set_batches db (<[batch_id := release batch]> (batches db)), true)
      else (db, true)
  | None => (db, true)
  end.

(** The terminal transition of a batch. *)
Definition complete (now : Z) (st : BatchStatus) (batch : UploadBatch)
  : UploadBatch :=
  {| uploader_id := uploader_id batch; status := st;
     locked_by := None; locked_at := None;
     questions_count := questions_count batch;
     created_at := created_at batch;
     completed_at := Some now |}.

(** The rows the query
    [Question.uploader_id == batch.uploader_id,
     Question.created_at >= batch.created_at] selects. *)
Definition batch_question (batch : UploadBatch) (q : Question) : bool :=
  bool_decide (q_uploader_id q = Some (uploader_id batch))
  && (created_at batch <=? q_created_at q).

Definition decide_question (active : bool) (q : Question) : Question :=
  {| topic_id := topic_id q;
     question_text := question_text q;
     option_a := option_a q; option_b := option_b q;
     option_c := option_c q; option_d := option_d q;
     correct_option := correct_option q;
     explanation := explanation q; source := source q;
     q_uploader_id := q_uploader_id q;
     uploader_username := uploader_username q;
     q_created_at := q_created_at q;
     is_active := active;
     moderation_score := moderation_score q;
     moderation_comments := moderation_comments q;
     moderated_by_ai := moderated_by_ai q;
     needs_review := false |}.

(** [len(questions)] of the selected rows. *)
Definition selected_count (batch : UploadBatch) (qs : gmap Z Question) : nat :=
  map_fold (fun _ q n => if batch_question batch q then S n else n) 0%nat qs.

Definition approve_batch (now batch_id admin_id : Z) (db : DB) : DB * Result :=
  match batches db !! batch_id with
  | None => (db, {| success := false; message := "Batch not found" |})
  | Some batch =>
      if negb (bool_decide (locked_by batch = Some admin_id)) then
        (db, {| success := false;
                message := "You don't have permission to approve this batch" |})
      else
        ({| batches := <[batch_id := complete now approved batch]> (batches db);
            users := users db;
            questions :=
              (fun q => if batch_question batch q then decide_question true q
                        else q) <$> questions db |},
         {| success := true;
            message := "Batch approved. "
                       ++ pretty (selected_count batch (questions db))
                       ++ " questions activated." |})
  end.

Definition reject_batch (now batch_id admin_id : Z) (db : DB) : DB * Result :=
  match batches db !! batch_id with
  | None => (db, {| success := false; message := "Batch not found" |})
  | Some batch =>
      if negb (bool_decide (locked_by batch = Some admin_id)) then
        (db, {| success := false;
                message := "You don't have permission to reject this batch" |})
      else
        ({| batches := <[batch_id := complete now rejected batch]> (batches db);
            users := users db;
            questions :=
              (fun q => if batch_question batch q then decide_question false q
                        else q) <$> questions db |},
         {| success := true;
            message := "Batch rejected. "
                       ++ pretty (selected_count batch (questions db))
                       ++ " questions deactivated." |})
  end.

(** The filter of the sweep: [locked_at < cutoff_time] and
    [status == "review"]; a NULL [locked_at] compares as unknown and the row
    is not selected. *)
Definition expired (now : Z) (batch : UploadBatch) : bool :=
  match locked_at batch with
  | Some t => (t <? now - timedelta_minutes lock_timeout_minutes)
  | None => false
  end
  && bool_decide (status batch = review).

Definition cleanup_expired_locks (now : Z) (db : DB) : DB * Z :=
  let count :=
    map_fold (fun _ b n => if expired now b then n + 1 else n) 0 (batches db) in
  (set_batches db
     ((fun b => if expired now b then release b else b) <$> batches db),
   count).

End MultiAdminService.

(** ** Python values, as [json.loads] produces them *)

(** A number: an [int] or a finite [float] as the rational it denotes, or one
    of the floats that [json.loads] reads from [NaN], [Infinity] and
    [-Infinity]. *)
Inductive pynum :=
| Finite (q : Q)
| NaN
| Infinity (negative : bool).

Coercion Finite : Q >-> pynum.

(** [a < b] on numbers: every comparison with NaN is false. *)
Definition num_lt (a b : pynum) : bool :=
  match a, b with
  | NaN, _ | _, NaN => false
  | Finite p, Finite q => if Qlt_le_dec p q then true else false
  | Finite _, Infinity negative => negb negative
  | Infinity negative, Finite _ => negative
  | Infinity n1, Infinity n2 => n1 && negb n2
  end.

#[warnings="-register-all"]
Inductive pyval :=
| PNone
| PBool (b : bool)
| PNum (x : pynum)
| PStr (s : string)
| PList (l : list pyval)
| PDict (d : list (string * pyval)).

Module Dict.

(** A [dict] with string keys is an association list read at the first
    binding of a key. *)
Fixpoint get {A} (k : string) (d : list (string * A)) : option A :=
  match d with
  | [] => None
  | (k', v) :: r => if bool_decide (k' = k) then Some v else get k r
  end.

(** [key in d] *)
Definition has {A} (k : string) (d : list (string * A)) : bool :=
  bool_decide (is_Some (get k d)).

(** [len(d)]: the number of distinct keys. *)
Definition len {A} (d : list (string * A)) : nat :=
  length (remove_dups (fst <$> d)).

End Dict.

(** Truth value of a Python value. *)
Definition truthy (v : pyval) : bool :=
  match v with
  | PNone => false
  | PBool b => b
  | PNum (Finite q) => negb (Qeq_bool q 0)
  | PNum _ => true
  | PStr s => negb (bool_decide (s = EmptyString))
  | PList l => negb (bool_decide (l = []))
  | PDict d => negb (bool_decide (d = []))
  end.

(** [d.get(k)] with the missing key read as [None]. *)
Definition get_or_none (k : string) (d : list (string * pyval)) : pyval :=
  default PNone (Dict.get k d).

(** [x or y] *)
Definition py_or (x y : pyval) : pyval := if truthy x then x else y.

(** [len(v)]; [None] stands for the [TypeError] of an unsized value. *)
Definition py_len (v : pyval) : option nat :=
  match v with
  | PStr s => Some (String.length s)
  | PList l => Some (length l)
  | PDict d => Some (Dict.len d)
  | _ => None
  end.

(** ** Outcomes of one loop iteration guarded by [try]/[except]/[continue] *)

Inductive outcome (A : Type) :=
| Done (a : A)      (* the body reached its end *)
| Skipped           (* a guard hit [continue] *)
| Raised.           (* an exception reached the [except] clause *)
Arguments Done {A} a.
Arguments Skipped {A}.
Arguments Raised {A}.

Global Instance outcome_bind : MBind outcome := fun A B k m =>
  match m with
  | Done a => k a
  | Skipped => Skipped
  | Raised => Raised
  end.

(** [if not b: continue] *)
Notation "'continue_unless' b ; k" := (if b then k else Skipped)
  (at level 20, b at level 100, k at level 200, only parsing).

(** Calling a [str] method on a value: an [AttributeError] on anything that
    is not a string. *)
Definition as_str (v : pyval) : outcome string :=
  match v with
  | PStr s => Done s
  | _ => Raised
  end.

(** ** The candidate validator ([AIQuestionParser._validate_questions]) *)

Module AIQuestionParser.

Record ValidatedQuestion := mkValidated {
  v_id : Z;
  v_question_text : string;
  v_options : list (string * string);
  v_correct_answer : string;
  v_explanation : string;
  v_ai_confidence : pyval
}.

Definition letters_ABCD : list string := ["A"; "B"; "C"; "D"]%string.

(** [min(max(x, 0.0), 1.0)]: comparing a number or a bool with a float is
    defined, anything else is a [TypeError].  [max] keeps [x] unless
    [0.0 > x], and [min] keeps that unless [1.0] is less: NaN, for which
    both tests are false, passes unchanged, and so do [True] and [False]. *)
Definition clamp_confidence (v : pyval) : outcome pyval :=
  match v with
  | PNum x =>
      let m := if num_lt x 0%Q then Finite 0 else x in
      Done (PNum (if num_lt 1%Q m then Finite 1 else m))
  | PBool b => Done (PBool b)
  | _ => Raised
  end.

(** The float [0.8], the default confidence. *)
Definition float_0_8 : Q := 3602879701896397 # 4503599627370496.

(** The loop [for key in ['A','B','C','D']] that fills [cleaned_options]. *)
Fixpoint clean_options (keys : list string) (options : list (string * pyval))
  : outcome (list (string * string)) :=
  match keys with
  | [] => Done []
  | key :: rest =>
      option_text ← as_str (default (PStr "") (Dict.get key options));
      cleaned ← clean_options rest options;
      let option_text := Py.strip option_text in
      Done (if bool_decide (option_text = EmptyString) then cleaned
            else (key, option_text) :: cleaned)
  end.

(** The body of the loop for the question at index [i]. *)
Definition validate_question (i : nat) (question : list (string * pyval))
  : outcome ValidatedQuestion :=
  continue_unless
    (forallb (fun key => Dict.has key question)
       ["question_text"; "options"; "correct_answer"]%string);
  match default (PDict []) (Dict.get "options" question) with
  | PDict options =>
      continue_unless (bool_decide (Dict.len options = 4%nat));
      correct_answer ←
        as_str (default (PStr "") (Dict.get "correct_answer" question));
      let correct_answer := Py.upper correct_answer in
      continue_unless (bool_decide (correct_answer ∈ letters_ABCD));
      question_text ←
        as_str (default (PStr "") (Dict.get "question_text" question));
      let question_text := Py.strip question_text in
      continue_unless (negb (String.length question_text <? 10)%nat);
      cleaned_options ← clean_options letters_ABCD options;
      continue_unless (bool_decide (length cleaned_options = 4%nat));
      explanation ←
        as_str (default (PStr "") (Dict.get "explanation" question));
      ai_confidence ← clamp_confidence
          (default (PNum float_0_8) (Dict.get "ai_confidence" question));
      Done {| v_id := Z.of_nat i + 1;
              v_question_text := question_text;
              v_options := cleaned_options;
              v_correct_answer := correct_answer;
              v_explanation := Py.strip explanation;
              v_ai_confidence := ai_confidence |}
  | _ => Skipped
  end.

(** [for i, question in enumerate(questions)], counting from [i]. *)
Fixpoint validate_from (i : nat) (questions : list (list (string * pyval)))
  : list ValidatedQuestion :=
  match questions with
  | [] => []
  | question :: rest =>
      match validate_question i question with
      | Done v => v :: validate_from (S i) rest
      | Skipped | Raised => validate_from (S i) rest
      end
  end.

Definition _validate_questions (questions : list (list (string * pyval)))
  : list ValidatedQuestion :=
  validate_from 0 questions.

End AIQuestionParser.

(** ** The moderation scorer ([services/moderation.py]) *)

Module Moderation.

(** The fields callers read from a moderation result.  [None] stands for a
    key the result does not have. *)
Record ModerationResult := mkModeration {
  m_score : option Z;
  m_comments : option string;
  m_action : option string
}.

(** What one provider did: no API key configured, a call that raised, or a
    parsed answer. *)
Inductive provider :=
| NoKey
| Failed
| Answered (r : ModerationResult).

(** [(question_data.get("question") or question_data.get("question_text")
      or "").strip()]; [None] stands for the [AttributeError] of a value
    without [strip]. *)
Definition heuristic_qtext (question_data : list (string * pyval))
  : option string :=
  match py_or (py_or (get_or_none "question" question_data)
                     (get_or_none "question_text" question_data))
              (PStr "") with
  | PStr s => Some (Py.strip s)
  | _ => None
  end.

(** [question_data.get("options") or []] *)
Definition heuristic_opts (question_data : list (string * pyval)) : pyval :=
  py_or (get_or_none "options" question_data) (PList []).

(** The heuristic fallback; [None] stands for an exception. *)
Definition heuristic (question_data : list (string * pyval))
  : option ModerationResult :=
  qtext ← heuristic_qtext question_data;
  let opts := heuristic_opts question_data in
  score ←
    (if Py.endswith_char qtext "?" then
       n ← py_len opts;
       Some (if (4 <=? n)%nat then 75 else 50)
     else Some 50);
  let action := if 70 <=? score then "accept" else "flag" in
  Some {| m_score := Some score;
          m_comments :=
            Some "Heuristic moderation applied - no AI available.";
          m_action := Some action |}.

Definition moderate_question_with_ai (openai gemini : provider)
    (question_data : list (string * pyval)) : option ModerationResult :=
  match openai with
  | Answered result => Some result
  | NoKey | Failed =>
      match gemini with
      | Answered parsed_result => Some parsed_result
      | NoKey | Failed => heuristic question_data
      end
  end.

End Moderation.

(** ** Contributor statistics ([AnalyticsService.update_contributor_stats]) *)

Module AnalyticsService.

(** [round(a / b)] for integers [a] and [b > 0]: the quotient rounded to the
    nearest integer, ties to the even one.  The float quotient of the source
    rounds the same way as long as [|a| < 2^52]. *)
Definition round_div (a b : Z) : Z :=
  let q := a / b in
  let r := a mod b in
  if 2 * r <? b then q
  else if b <? 2 * r then q + 1
  else if Z.even q then q else q + 1.

Definition bump (o : option Z) : option Z := Some (Py.int_or0 o + 1).

(** The scores of the rows selected by [Question.uploader_id == user_id,
    Question.moderation_score.isnot(None)]. *)
Definition uploader_scores (user_id : Z) (qs : gmap Z Question) : list Z :=
  omap (fun kq : Z * Question =>
          if bool_decide (q_uploader_id kq.2 = Some user_id)
          then moderation_score kq.2 else None)
       (map_to_list qs).

Definition set_counts (approved flagged rejected : option Z) (u : User)
  : User :=
  {| username := username u; first_name := first_name u;
     upload_count := upload_count u;
     approved_count := approved; flagged_count := flagged;
     rejected_count := rejected;
     average_moderation_score := average_moderation_score u |}.

Definition set_average (average : option Z) (u : User) : User :=
  {| username := username u; first_name := first_name u;
     upload_count := upload_count u;
     approved_count := approved_count u; flagged_count := flagged_count u;
     rejected_count := rejected_count u;
     average_moderation_score := average |}.

Definition update_contributor_stats (user_id question_id : Z)
    (action : string) (db : DB) : DB :=
  match users db !! user_id with
  | None => db
  | Some user =>
      let user :=
        if bool_decide (action = "approved") then
          set_counts (bump (approved_count user)) (flagged_count user)
            (rejected_count user) user
        else if bool_decide (action = "flagged") then
          set_counts (approved_count user) (bump (flagged_count user))
            (rejected_count user) user
        else if bool_decide (action = "rejected") then
          set_counts (approved_count user) (flagged_count user)
            (bump (rejected_count user)) user
        else user in
      let user :=
        match questions db !! question_id with
        | Some question =>
            if Py.int_truthy (moderation_score question) then
              let all_questions := uploader_scores user_id (questions db) in
              if bool_decide (all_questions = []) then user
              else
                set_average
                  (Some (round_div (foldr Z.add 0 all_questions)
                                   (Z.of_nat (length all_questions))))
                  user
            else user
        | None => user
        end in
      set_users db (<[user_id := user]> (users db))
  end.

End AnalyticsService.

(** ** Automatic moderation after upload ([ModerationHandlers]) *)

Module ModerationHandlers.

Import Moderation.

(** [moderate_question_after_upload], given the moderation result the
    scorer returned. *)
Definition moderate_question_after_upload (moderation_result : ModerationResult)
    (question_id : Z) (db : DB) : DB :=
  match questions db !! question_id with
  | None => db
  | Some question =>
      let action := default "flag"%string (m_action moderation_result) in
      let question' :=
        {| topic_id := topic_id question;
           question_text := question_text question;
           option_a := option_a question; option_b := option_b question;
           option_c := option_c question; option_d := option_d question;
           correct_option := correct_option question;
           explanation := explanation question; source := source question;
           q_uploader_id := q_uploader_id question;
           uploader_username := uploader_username question;
           q_created_at := q_created_at question;
           is_active :=
             if bool_decide (action = "flag") then is_active question
             else if bool_decide (action = "reject") then false
             else is_active question;
           moderation_score := Some (default 0 (m_score moderation_result));
           moderation_comments :=
             Some (default ""%string (m_comments moderation_result));
           moderated_by_ai := true;
           needs_review := bool_decide (action = "flag") |} in
      let db' :=
        set_questions db (<[question_id := question']> (questions db)) in
      match q_uploader_id question' with
      | Some uploader =>
          if Py.int_truthy (Some uploader) then
            AnalyticsService.update_contributor_stats
              uploader question_id action db'
          else db'
      | None => db'
      end
  end.

End ModerationHandlers.

(** ** The review commit path ([handlers/admin.py]) *)

Module Admin.

Import Moderation.

(** One extracted candidate as the review loop holds it: the keys
    [question], [options], [correct_answer], [explanation] and [source] of
    the dict, each possibly missing or null. *)
Record Candidate := mkCandidate {
  c_question : option string;
  c_options : option (list (option string));
  c_correct_answer : option string;
  c_explanation : option string;
  c_source : option string
}.

Record Topic := mkTopic { t_id : Z; t_name : option string }.

Definition letters : list string := ["A"; "B"; "C"; "D"; "E"]%string.

(** [l.index(x)]; [None] stands for the [ValueError]. *)
Fixpoint index (x : string) (l : list string) : option nat :=
  match l with
  | [] => None
  | y :: r => if bool_decide (y = x) then Some 0%nat else S <$> index x r
  end.

(** [[o.strip().lower() for o in options]]; [None] stands for the
    [AttributeError] of an option that is not a string. *)
Definition normalised_options (options : list (option string))
  : option (list string) :=
  mapM (fun o : option string => (fun s => Py.lower (Py.strip s)) <$> o)
    options.

(** [s[0]] of a non-empty string. *)
Definition first_char (s : string) : string :=
  match s with
  | String c _ => String c EmptyString
  | EmptyString => EmptyString
  end.

Definition _map_correct_option (correct : option string)
    (options : list (option string)) : string :=
  if negb (Py.str_truthy correct) then "A"
  else
    let correct := default ""%string correct in
    if bool_decide (Py.upper (Py.strip correct) ∈ letters)
    then first_char (Py.upper (Py.strip correct))
    else
      match normalised_options options with
      | Some texts =>
          match index (Py.lower (Py.strip correct)) texts with
          | Some idx => default "A"%string (letters !! idx)
          | None => "A"
          end
      | None => "A"
      end.

Definition str_to_py (o : option string) : pyval :=
  match o with
  | Some s => PStr s
  | None => PNone
  end.

Definition options_to_py (o : option (list (option string))) : pyval :=
  match o with
  | Some l => PList (str_to_py <$> l)
  | None => PNone
  end.

(** The dict handed to the scorer. *)
Definition question_data (q : Candidate) (topic : Topic)
  : list (string * pyval) :=
  [("question", str_to_py (c_question q));
   ("options", options_to_py (c_options q));
   ("correct_answer", str_to_py (c_correct_answer q));
   ("explanation", str_to_py (c_explanation q));
   ("topic", str_to_py (t_name topic))]%string.

(** [Result.scalar_one_or_none()]: the outer [None] stands for
    [MultipleResultsFound]. *)
Definition scalar_one_or_none {A} (rows : list A) : option (option A) :=
  match rows with
  | [] => Some None
  | [row] => Some (Some row)
  | _ => None
  end.

(** [select(User).where(User.username == name)] *)
Definition users_named (name : option string) (us : gmap Z User)
  : list (Z * User) :=
  filter (fun kv : Z * User => username kv.2 = name) (map_to_list us).

(** [q.get("options") or [None, None, None, None]] *)
Definition options_or_blank (q : Candidate) : list (option string) :=
  match c_options q with
  | Some (o :: r) => o :: r
  | _ => [None; None; None; None]
  end.

(** [opts[i] or ""]; [None] stands for the [IndexError]. *)
Definition option_at (opts : list (option string)) (i : nat) : option string :=
  o ← opts !! i;
  Some (default ""%string (Py.str_or o (Some ""%string))).

(** The counter update of the uploader's row. *)
Definition count_upload (is_reject needs_review : bool) (mscore : option Z)
    (uploader_user : User) : User :=
  let uploads := Some (Py.int_or0 (upload_count uploader_user) + 1) in
  if is_reject then
    {| username := username uploader_user;
       first_name := first_name uploader_user;
       upload_count := uploads;
       approved_count := approved_count uploader_user;
       flagged_count := flagged_count uploader_user;
       rejected_count := Some (Py.int_or0 (rejected_count uploader_user) + 1);
       average_moderation_score := average_moderation_score uploader_user |}
  else if needs_review then
    {| username := username uploader_user;
       first_name := first_name uploader_user;
       upload_count := uploads;
       approved_count := approved_count uploader_user;
       flagged_count := Some (Py.int_or0 (flagged_count uploader_user) + 1);
       rejected_count := rejected_count uploader_user;
       average_moderation_score := average_moderation_score uploader_user |}
  else
    let approved := Py.int_or0 (approved_count uploader_user) + 1 in
    {| username := username uploader_user;
       first_name := first_name uploader_user;
       upload_count := uploads;
       approved_count := Some approved;
       flagged_count := flagged_count uploader_user;
       rejected_count := rejected_count uploader_user;
       average_moderation_score :=
         match mscore with
         | Some mscore =>
             let prev_avg :=
               Py.int_or0 (average_moderation_score uploader_user) in
             let prev_n :=
               if negb (approved =? 0) && (0 <? approved)
               then approved - 1 else 0 in
             Some (AnalyticsService.round_div
                     (prev_avg * prev_n + mscore) (prev_n + 1))
         | None => average_moderation_score uploader_user
         end |}.

(** [(moderation.get("action") or "flag").lower()] *)
Definition action_of (moderation : ModerationResult) : string :=
  Py.lower (default ""%string
              (Py.str_or (m_action moderation) (Some "flag"%string))).

(** *** The call of the constructor *)

(** An instance as its constructor leaves it: the attributes set, in the
    order of the keywords. *)
Definition instance : Type := list (string * pyval).

(** The names the class [Question] of [database/models.py] has: its table
    name, its columns and relationships, and [metadata] and [registry] of
    the declarative base.  Names that begin with an underscore are left
    out. *)
Definition Question_attributes : list string :=
  ["__tablename__"; "metadata"; "registry";
   "question_id"; "unit"; "topic"; "question_text"; "option_a"; "option_b";
   "option_c"; "option_d"; "correct_option"; "explanation"; "uploader_id";
   "verified_by"; "created_at"; "topic_id"; "paper_id"; "difficulty";
   "uploader_username"; "source"; "is_active"; "topic_rel"; "paper";
   "uploader"; "verifier"; "moderation_score"; "moderation_comments";
   "moderated_by_ai"; "needs_review"; "reviewed_by_admin_id"]%string.

(** SQLAlchemy's declarative constructor, which [Question] inherits:
    [for k in kwargs: if not hasattr(cls_, k): raise TypeError(...);
     setattr(self, k, kwargs[k])].  [None] stands for the [TypeError]. *)
Definition declarative_constructor (attributes : list string)
    (kwargs : list (string * pyval)) : option instance :=
  if forallb (fun kv : string * pyval => bool_decide (kv.1 ∈ attributes))
       kwargs
  then Some kwargs else None.

Definition int_to_py (o : option Z) : pyval :=
  match o with
  | Some n => PNum (inject_Z n)
  | None => PNone
  end.

(** The call [Question(...)] of the commit path with its sixteen keywords,
    [correct_answer] and [uploader_user_id] among them.  The arguments are
    evaluated first; [None] stands for the [IndexError] of an options list
    with fewer than four entries and for the [TypeError] of the
    constructor. *)
Definition new_question (topic : Topic) (q : Candidate)
    (name : option string) (needs_review : bool) (mscore : option Z)
    (mcomments : option string) : option instance :=
  let opts := options_or_blank q in
  a ← option_at opts 0;
  b ← option_at opts 1;
  c ← option_at opts 2;
  d ← option_at opts 3;
  declarative_constructor Question_attributes
    [("topic_id", PNum (inject_Z (t_id topic)));
     ("question_text",
      PStr (default ""%string (Py.str_or (c_question q) (Some ""%string))));
     ("option_a", PStr a);
     ("option_b", PStr b);
     ("option_c", PStr c);
     ("option_d", PStr d);
     ("correct_answer",
      PStr (_map_correct_option (c_correct_answer q)
              (default [] (c_options q))));
     ("explanation", str_to_py (c_explanation q));
     ("source", str_to_py (c_source q));
     ("uploader_user_id", PNone);
     ("uploader_username", str_to_py name);
     ("is_active", PBool (negb needs_review));
     ("moderation_score", int_to_py mscore);
     ("moderation_comments", str_to_py mcomments);
     ("moderated_by_ai", PBool true);
     ("needs_review", PBool needs_review)]%string.

Section Session.

(** [db.add(question)] followed by [await db.commit()]: the database in
    which the pending changes of the session and the new row are stored, or
    [None] for an exception of the flush.  How the session turns an
    instance into a row is left open. *)
Variable add_and_commit : instance -> DB -> option DB.

(** [_insert_question_with_moderation]: [topic] is the first row of the
    topics table, [tg_username] the Telegram user's name.  The result is the
    committed database and the reply sent; [None] stands for an exception,
    which ends the session without a commit and so leaves the database as
    it was. *)
Definition _insert_question_with_moderation
    (openai gemini : provider) (topic : option Topic) (q : Candidate)
    (tg_username : option string) (db : DB) : option (DB * string) :=
  match topic with
  | None => Some (db, "No topics found. Please create a topic first."%string)
  | Some topic =>
      moderation ← moderate_question_with_ai openai gemini
                     (question_data q topic);
      let mscore := m_score moderation in
      let mcomments := m_comments moderation in
      let action := action_of moderation in
      let needs_review := bool_decide (action = "flag"%string) in
      let is_reject := bool_decide (action = "reject"%string) in
      let name := Py.str_or tg_username None in
      uploader_user ← scalar_one_or_none (users_named name (users db));
      let us :=
        match uploader_user with
        | Some (uid, u) =>
            <[uid := count_upload is_reject needs_review mscore u]> (users db)
        | None => users db
        end in
      if is_reject then
        Some (set_users db us, "❌ Rejected by AI moderation."%string)
      else
        question ← new_question topic q name needs_review mscore mcomments;
        db' ← add_and_commit question (set_users db us);
        Some (db',
              if needs_review
              then "⚠️ Added to moderation queue for super admin review."%string
              else "✅ Question published."%string)
  end.

(** *** Confirming the candidate under the cursor *)

(** What [admin_review_confirm] leaves behind: the database, the review
    index and the messages sent, in order, before the next review card is
    shown.  The rows it writes to the system log are not part of the
    model. *)
Record Review := mkReview {
  r_db : DB;
  r_index : nat;
  r_replies : list string
}.

Definition something_went_wrong : string :=
  "⚠️ Something went wrong while saving this question.".

Definition uploaded : string := "✅ Uploaded. Moving to next…".

(** [admin_review_confirm]: [candidates] is the list under
    [parsed_mcqs["questions"]] and [idx] the review index.  An exception of
    the commit, or of the slice [q.get("question")[:120]] of the log line
    that follows it, is caught and answered with a warning; the index moves
    on and the reviewer is told "Uploaded" either way. *)
Definition admin_review_confirm (is_admin : bool) (openai gemini : provider)
    (topic : option Topic) (candidates : list Candidate) (idx : nat)
    (tg_username : option string) (db : DB) : Review :=
  if negb is_admin then
    {| r_db := db; r_index := idx;
       r_replies := ["❌ You don't have admin privileges."%string] |}
  else
    match candidates !! idx with
    | None =>
        {| r_db := db; r_index := idx;
           r_replies := ["No more questions."%string] |}
    | Some q =>
        match _insert_question_with_moderation openai gemini topic q
                tg_username db with
        | Some (db', reply) =>
            {| r_db := db'; r_index := S idx;
               r_replies :=
                 reply
                 :: match c_question q with
                    | Some _ => [uploaded]
                    | None => [something_went_wrong; uploaded]
                    end |}
        | None =>
            {| r_db := db; r_index := S idx;
               r_replies := [something_went_wrong; uploaded] |}
        end
    end.

End Session.

End Admin.

(** ** The batch store as a transition system *)

Module BatchStore.

Import MultiAdminService.

(** The operations of the batch store, with their arguments. *)
Inductive op :=
| OpCreate (uploader count : Z)
| OpLock (batch_id admin_id : Z)
| OpUnlock (batch_id admin_id : Z)
| OpApprove (batch_id admin_id : Z)
| OpReject (batch_id admin_id : Z)
| OpCleanup.

(** The database an operation leaves behind when it runs at time [now]. *)
Definition run (now : Z) (o : op) (db : DB) : DB :=
  match o with
  | OpCreate uploader count => (create_upload_batch now uploader count db).1
  | OpLock batch_id admin_id =>
      (lock_batch_for_review now batch_id admin_id db).1
  | OpUnlock batch_id admin_id => (unlock_batch batch_id admin_id db).1
  | OpApprove batch_id admin_id => (approve_batch now batch_id admin_id db).1
  | OpReject batch_id admin_id => (reject_batch now batch_id admin_id db).1
  | OpCleanup => (cleanup_expired_locks now db).1
  end.

(** A history: operations with the times they ran at, oldest first. *)
Fixpoint run_all (history : list (Z * op)) (db : DB) : DB :=
  match history with
  | [] => db
  | (now, o) :: rest => run_all rest (run now o db)
  end.

(** [lock-holder != null ⇒ status == review], for every batch. *)
Definition lock_invariant (db : DB) : Prop :=
  map_Forall (fun _ b => locked_by b <> None -> status b = review) (batches db).

(** The lock timeout in microseconds. *)
Definition lock_timeout : Z := lock_timeout_minutes * 60 * 1000000.

End BatchStore.


(** ** The acceptance rule for extracted candidates *)

Module CandidateRule.

Import AIQuestionParser.

(** The rule in the words of the specification: a non-empty question text,
    exactly four non-empty options, and a correct answer that is one of the
    letters A to D or, compared case-insensitively, the text of one of the
    options. *)
Definition spec_valid (c : list (string * pyval)) : Prop :=
  exists text options answer,
    Dict.get "question_text" c = Some (PStr text)
    /\ text <> EmptyString
    /\ Dict.get "options" c = Some (PDict options)
    /\ Dict.len options = 4%nat
    /\ (forall k v, Dict.get k options = Some v ->
          exists s, v = PStr s /\ s <> EmptyString)
    /\ Dict.get "correct_answer" c = Some (PStr answer)
    /\ (Py.upper answer ∈ letters_ABCD
        \/ exists k s, Dict.get k options = Some (PStr s)
                       /\ Py.lower s = Py.lower answer).

(** An optional key holds a value of the expected kind when it is there. *)
Definition optional (k : string) (kind : pyval -> Prop)
    (c : list (string * pyval)) : Prop :=
  forall v, Dict.get k c = Some v -> kind v.

Definition is_str (v : pyval) : Prop := exists s, v = PStr s.

Definition is_number (v : pyval) : Prop :=
  (exists q, v = PNum q) \/ (exists b, v = PBool b).

(** The rule the validator enforces: the question text, with surrounding
    white space removed, has at least 10 characters; the options are a dict
    of exactly four entries whose keys A, B, C and D hold strings that are
    not blank; the correct answer is one of the letters A to D in either
    case; and the optional explanation and confidence, when given, are a
    string and a number. *)
Definition code_valid (c : list (string * pyval)) : Prop :=
  exists text options answer,
    Dict.get "question_text" c = Some (PStr text)
    /\ (10 <= String.length (Py.strip text))%nat
    /\ Dict.get "options" c = Some (PDict options)
    /\ Dict.len options = 4%nat
    /\ Forall (fun k => exists s, Dict.get k options = Some (PStr s)
                                  /\ Py.strip s <> EmptyString) letters_ABCD
    /\ Dict.get "correct_answer" c = Some (PStr answer)
    /\ Py.upper answer ∈ letters_ABCD
    /\ optional "explanation" is_str c
    /\ optional "ai_confidence" is_number c.

Definition four_options : pyval :=
  PDict [("A", PStr "Axillary"); ("B", PStr "Radial");
         ("C", PStr "Median"); ("D", PStr "Ulnar")]%string.

(** A short but complete question with its answer given as a letter. *)
Definition short_question : list (string * pyval) :=
  [("question_text", PStr "Why?"); ("options", four_options);
   ("correct_answer", PStr "A")]%string.

(** A question whose answer is given as the text of option B. *)
Definition answer_by_text : list (string * pyval) :=
  [("question_text", PStr "Which nerve supplies the deltoid muscle?");
   ("options", four_options); ("correct_answer", PStr "radial")]%string.

(** The same question with the answer given as a letter. *)
Definition answer_by_letter : list (string * pyval) :=
  [("question_text", PStr "Which nerve supplies the deltoid muscle?");
   ("options", four_options); ("correct_answer", PStr "b")]%string.

End CandidateRule.

(** ** A run of review commits by one uploader *)

Module Counters.

Import Moderation Admin.

(** The scorer accepts with score [s]. *)
Definition accepts_with (s : Z) : provider :=
  Answered {| m_score := Some s; m_comments := None;
              m_action := Some "accept"%string |}.

(** The scorer rejects. *)
Definition rejects_with (s : Z) : provider :=
  Answered {| m_score := Some s; m_comments := None;
              m_action := Some "reject"%string |}.

(** The reviewer, who is an admin, confirms one candidate after the other
    from the review index [idx] on; the scorer accepts each with the next
    of the [scores]. *)
Fixpoint confirm_all (add_and_commit : instance -> DB -> option DB)
    (topic : Topic) (tg_username : option string)
    (candidates : list Candidate) (scores : list Z) (idx : nat) (db : DB)
  : Review :=
  match scores with
  | [] => {| r_db := db; r_index := idx; r_replies := [] |}
  | s :: rest =>
      let r := admin_review_confirm add_and_commit true (accepts_with s)
                 NoKey (Some topic) candidates idx tg_username db in
      let r' := confirm_all add_and_commit topic tg_username candidates rest
                  (r_index r) (r_db r) in
      {| r_db := r_db r'; r_index := r_index r';
         r_replies := r_replies r ++ r_replies r' |}
  end.

(** The arithmetic mean of the scores, rounded. *)
Definition rounded_mean (scores : list Z) : Z :=
  AnalyticsService.round_div (foldr Z.add 0 scores) (Z.of_nat (length scores)).

(** Exactly one row of the users table carries the name: the row [uid]. *)
Definition sole_user (name : option string) (uid : Z) (us : gmap Z User)
  : Prop :=
  (exists u, us !! uid = Some u /\ username u = name)
  /\ map_Forall (fun k v => username v = name -> k = uid) us.

(** A column of the row [uid] of the users table. *)
Definition counter (column : User -> option Z) (uid : Z) (db : DB)
  : option Z :=
  u ← users db !! uid; column u.

(** A column of the row [qid] of the questions table. *)
Definition question_field {A} (column : Question -> A) (qid : Z) (db : DB)
  : option A :=
  column <$> questions db !! qid.

Definition mcq (text : string) (answer : option string) : Candidate :=
  {| c_question := Some text;
     c_options := Some [Some "Axillary"; Some "Radial"; Some "Median";
                        Some "Ulnar"]%string;
     c_correct_answer := answer; c_explanation := None; c_source := None |}.

Definition anatomy : Topic := {| t_id := 1; t_name := Some "Anatomy"%string |}.

(** Three confirmed candidates, scored 70, 71 and 71. *)
Definition three_items : list (Candidate * Z) :=
  [(mcq "Which nerve supplies the deltoid muscle?" (Some "A"%string), 70);
   (mcq "Which nerve supplies the triceps muscle?" (Some "B"%string), 71);
   (mcq "Which nerve supplies the thenar muscles?" (Some "C"%string), 71)].

End Counters.

(** ** Answers the commit path cannot resolve *)

Module AnswerRule.

Import Admin.

(** The answer is one of the letters A to E, in either case and with
    surrounding white space ignored. *)
Definition is_letter (correct : string) : Prop :=
  Py.upper (Py.strip correct) ∈ letters.

(** The answer is the text of one of the options, compared without regard
    to case and surrounding white space. *)
Definition matches_option (correct : string) (options : list (option string))
  : Prop :=
  exists o, Some o ∈ options
            /\ Py.lower (Py.strip o) = Py.lower (Py.strip correct).

(** The answer is empty, or neither a letter nor the text of an option. *)
Definition unresolvable (correct : option string)
    (options : list (option string)) : Prop :=
  correct = None \/ correct = Some EmptyString
  \/ exists s, correct = Some s /\ ~ is_letter s
                /\ ~ matches_option s options.

End AnswerRule.

(** ** The heuristic verdicts *)

Module FallbackRule.

Import Moderation.

(** No provider gives an answer: each has no key or fails. *)
Definition unavailable (p : provider) : Prop := forall r, p <> Answered r.

(** Score 75 with action [accept]. *)
Definition accepted (r : ModerationResult) : Prop :=
  m_score r = Some 75 /\ m_action r = Some "accept"%string.

(** Score 50 with action [flag]. *)
Definition flagged (r : ModerationResult) : Prop :=
  m_score r = Some 50 /\ m_action r = Some "flag"%string.

(** A question that ends with a question mark and has five options. *)
Definition five_options : list (string * pyval) :=
  [("question", PStr "Which nerve supplies the deltoid muscle?");
   ("options", PList [PStr "Axillary"; PStr "Radial"; PStr "Median";
                      PStr "Ulnar"; PStr "Musculocutaneous"])]%string.

(** The same question with four options and trailing white space. *)
Definition four_options : list (string * pyval) :=
  [("question", PStr "Which nerve supplies the deltoid muscle?  ");
   ("options", PList [PStr "Axillary"; PStr "Radial"; PStr "Median";
                      PStr "Ulnar"])]%string.

End FallbackRule.

(** ** Concrete databases used in examples *)

Module Examples.

Definition no_counts (name : string) : User :=
  {| username := Some name; first_name := None; upload_count := Some 0;
     approved_count := Some 0; flagged_count := Some 0;
     rejected_count := Some 0; average_moderation_score := None |}.

(** A batch of uploader 7 created at [created], in review and locked by
    [holder] since [since]. *)
Definition locked_batch (created holder since : Z) : UploadBatch :=
  {| uploader_id := 7; status := review; locked_by := Some holder;
     locked_at := Some since; questions_count := 1; created_at := created;
     completed_at := None |}.

(** A question of uploader 7 created at [created] that the scorer flagged:
    held back for review and not active. *)
Definition flagged_question (created : Z) : Question :=
  {| topic_id := Some 1; question_text := "Which nerve supplies the deltoid?";
     option_a := "Axillary"; option_b := "Radial"; option_c := "Median";
     option_d := "Ulnar"; correct_option := "A";
     explanation := None; source := None;
     q_uploader_id := Some 7; uploader_username := Some "alice"%string;
     q_created_at := created; is_active := false;
     moderation_score := Some 55; moderation_comments := None;
     moderated_by_ai := true; needs_review := true |}.

Definition people : gmap Z User :=
  {[ 5 := no_counts "bob"; 6 := no_counts "carol"; 7 := no_counts "alice" ]}.

(** Batch 1 was locked by admin 5 at time 0. *)
Definition one_locked_batch : DB :=
  {| batches := {[ 1 := locked_batch 0 5 0 ]};
     users := people; questions := ∅ |}.

(** Batch 1 was locked at time 0 by [holder]; the users table is [us]. *)
Definition locked_by_admin (holder : Z) (us : gmap Z User) : DB :=
  {| batches := {[ 1 := locked_batch 0 holder 0 ]};
     users := us; questions := ∅ |}.

(** A users row with neither user name nor first name. *)
Definition nameless : User :=
  {| username := None; first_name := None; upload_count := Some 0;
     approved_count := Some 0; flagged_count := Some 0;
     rejected_count := Some 0; average_moderation_score := None |}.

(** Batch 1 names admin 5 as its lock-holder but has no lock time. *)
Definition untimed_batch : UploadBatch :=
  {| uploader_id := 7; status := review; locked_by := Some 5;
     locked_at := None; questions_count := 1; created_at := 0;
     completed_at := None |}.

Definition one_untimed_lock : DB :=
  {| batches := {[ 1 := untimed_batch ]}; users := people; questions := ∅ |}.

(** Uploader 7 has two batches, created at times 100 and 200, both under
    review by admin 5; question 50 was created at time 250. *)
Definition two_batches : DB :=
  {| batches := {[ 1 := locked_batch 100 5 300; 2 := locked_batch 200 5 300 ]};
     users := people;
     questions := {[ 50 := flagged_question 250 ]} |}.

(** Question 50 of uploader 7 exists and is active. *)
Definition one_question : DB :=
  {| batches := ∅; users := people;
     questions :=
       {[ 50 :=
            {| topic_id := Some 1;
               question_text := "Which nerve supplies the deltoid?";
               option_a := "Axillary"; option_b := "Radial";
               option_c := "Median"; option_d := "Ulnar";
               correct_option := "A"; explanation := None; source := None;
               q_uploader_id := Some 7;
               uploader_username := Some "alice"%string;
               q_created_at := 10; is_active := true;
               moderation_score := None; moderation_comments := None;
               moderated_by_ai := false; needs_review := false |} ]} |}.

End Examples.

(** ** Listing the batches an admin may review
       ([MultiAdminService.get_available_batches_for_admin]) *)

Module Listing.

Import MultiAdminService.

(** One entry of the listing. *)
Record BatchSummary := mkSummary {
  s_batch_id : Z;
  s_uploader : option string;
  s_questions_count : Z;
  s_status : BatchStatus;
  s_locked_by : option Z;
  s_locked_at : option Z;
  s_created_at : Z
}.

(** [uploader.username or uploader.first_name if uploader else "Unknown"] *)
Definition display_name (u : option User) : option string :=
  match u with
  | Some u => Py.str_or (username u) (first_name u)
  | None => Some "Unknown"%string
  end.

(** The two filters of the query: not locked, locked by this admin or
    locked before the cutoff, and still in draft or review.  A comparison
    with a NULL column selects nothing. *)
Definition available (now admin_id : Z) (batch : UploadBatch) : bool :=
  (bool_decide (locked_by batch = None)
   || bool_decide (locked_by batch = Some admin_id)
   || match locked_at batch with
      | Some t => t <? now - timedelta_minutes lock_timeout_minutes
      | None => false
      end)
  && (bool_decide (status batch = draft)
      || bool_decide (status batch = review)).

(** The rows come in the order of the table scan. *)
Definition get_available_batches_for_admin (now admin_id : Z) (db : DB)
  : list BatchSummary :=
  (fun kb : Z * UploadBatch =>
     {| s_batch_id := kb.1;
        s_uploader := display_name (users db !! uploader_id kb.2);
        s_questions_count := questions_count kb.2;
        s_status := status kb.2;
        s_locked_by := locked_by kb.2;
        s_locked_at := locked_at kb.2;
        s_created_at := created_at kb.2 |})
  <$> filter (fun kb : Z * UploadBatch => available now admin_id kb.2 = true)
        (map_to_list (batches db)).

End Listing.

(** ** What the operations of the batch store write *)

Module Effects.

(** The row a successful [lock_batch_for_review] writes. *)
Definition locked_as (now admin_id : Z) (batch : UploadBatch) : UploadBatch :=
  {| uploader_id := uploader_id batch; status := review;
     locked_by := Some admin_id; locked_at := Some now;
     questions_count := questions_count batch;
     created_at := created_at batch;
     completed_at := completed_at batch |}.

(** The row [create_upload_batch] adds. *)
Definition new_batch (now uploader count : Z) : UploadBatch :=
  {| uploader_id := uploader; status := draft; locked_by := None;
     locked_at := None; questions_count := count; created_at := now;
     completed_at := None |}.

(** A batch locked by [holder] at time 0 whose status is [st]. *)
Definition held (st : BatchStatus) (holder : option Z) (since : option Z)
  : UploadBatch :=
  {| uploader_id := 7; status := st; locked_by := holder;
     locked_at := since; questions_count := 1; created_at := 0;
     completed_at := None |}.

(** Batch 1 is an approved batch without a lock, batch 2 a draft, batch 3
    is locked by admin 5 since time 0; uploader 7 has one flagged question
    created at time 10 and uploader 6 has one created at time 20. *)
Definition store : DB :=
  {| batches := {[ 1 := held approved None None; 2 := held draft None None;
                   3 := held review (Some 5) (Some 0) ]};
     users := Examples.people;
     questions :=
       {[ 50 := Examples.flagged_question 10;
          51 := {| topic_id := Some 1; question_text := "Which bone is sesamoid?";
                   option_a := "Patella"; option_b := "Femur";
                   option_c := "Tibia"; option_d := "Fibula";
                   correct_option := "A"; explanation := None; source := None;
                   q_uploader_id := Some 6;
                   uploader_username := Some "carol"%string;
                   q_created_at := 20; is_active := false;
                   moderation_score := Some 40; moderation_comments := None;
                   moderated_by_ai := true; needs_review := true |} ]} |}.

End Effects.

(** ** Retrying a call ([services/async_jobs.py]) *)

Module AsyncJobs.

(** What one call of [fn] does; [Raises] is an exception that the clause
    [except Exception] catches. *)
Inductive call_result (A E : Type) :=
| Returns (a : A)
| Raises (e : E).
Arguments Returns {A E} a.
Arguments Raises {A E} e.

(** How [retry_with_backoff] ends: with the value of a call, with
    [raise last_exc], by falling off its end, which returns [None], or with
    an exception of the statement [time.sleep(base_delay * (2 ** i))],
    which is raised inside the except clause and so leaves the function. *)
Inductive Ending (A E : Type) :=
| Returned (a : A)
| Reraised (e : E)
| ReturnedNone
| SleepRaised.
Arguments Returned {A E} a.
Arguments Reraised {A E} e.
Arguments ReturnedNone {A E}.
Arguments SleepRaised {A E}.

(** What [retry_with_backoff] does: how it ends, how often it called [fn],
    and the arguments of the calls of [time.sleep] that returned, in
    order. *)
Record Run (A E : Type) := mkRun {
  ending : Ending A E;
  calls : nat;
  sleeps : list Q
}.
Arguments mkRun {A E}.
Arguments ending {A E}.
Arguments calls {A E}.
Arguments sleeps {A E}.

(** [base_delay * (2 ** i)] as a number; [base_delay] is a finite float. *)
Definition delay (base_delay : Q) (i : nat) : Q :=
  (base_delay * inject_Z (2 ^ Z.of_nat i))%Q.

Section Clock.

(** The longest delay that [time.sleep] takes on the platform: with CPython
    on a 64-bit system somewhat less than 2^63 nanoseconds. *)
Variable clock_limit : Q.

(** Whether the statement [time.sleep(base_delay * (2 ** i))] raises: from
    [i = 1024] on the int [2 ** i] is too large to be converted to a float
    (an OverflowError of the product); a negative delay is a ValueError of
    [time.sleep], and a delay beyond the range of the clock an
    OverflowError or OSError. *)
Definition sleep_raises (base_delay : Q) (i : nat) : bool :=
  (1024 <=? i)%nat
  || (if Qlt_le_dec (delay base_delay i) 0 then true else false)
  || (if Qlt_le_dec clock_limit (delay base_delay i) then true else false).

(** The iterations [i, i+1, ...] of [for i in range(attempts)]; [fn i] is
    what the call made in iteration [i] does. *)
Fixpoint retry_from {A E} (fn : nat -> call_result A E) (attempts : Z)
    (base_delay : Q) (i remaining : nat) (last_exc : option E) : Run A E :=
  match remaining with
  | O =>
      {| ending := match last_exc with
                   | Some e => Reraised e
                   | None => ReturnedNone
                   end;
         calls := 0; sleeps := [] |}
  | S remaining =>
      match fn i with
      | Returns a => {| ending := Returned a; calls := 1; sleeps := [] |}
      | Raises e =>
          let rest :=
            retry_from fn attempts base_delay (S i) remaining (Some e) in
          if Z.of_nat i <? attempts - 1 then
            if sleep_raises base_delay i then
              {| ending := SleepRaised; calls := 1; sleeps := [] |}
            else
              {| ending := ending rest;
                 calls := S (calls rest);
                 sleeps := delay base_delay i :: sleeps rest |}
          else
            {| ending := ending rest;
               calls := S (calls rest);
               sleeps := sleeps rest |}
      end
  end.

Definition retry_with_backoff {A E} (fn : nat -> call_result A E)
    (attempts : Z) (base_delay : Q) : Run A E :=
  retry_from fn attempts base_delay 0 (Z.to_nat attempts) None.

End Clock.

(** The sleeps after the first [k] failures. *)
Definition delays (base_delay : Q) (k : nat) : list Q :=
  delay base_delay <$> seq 0 k.

(** The sum of a list of durations. *)
Definition total (durations : list Q) : Q := foldr Qplus 0%Q durations.

(** A call that fails twice and then returns 42. *)
Definition third_time_lucky (i : nat) : call_result Z string :=
  match i with
  | 0%nat => Raises "timeout"%string
  | 1%nat => Raises "busy"%string
  | _ => Returns 42
  end.

(** A call that always fails, with the number of the call in the error. *)
Definition always_failing (i : nat) : call_result Z nat := Raises i.

(** A clock that takes delays of up to 9 * 10^9 seconds. *)
Definition a_clock_limit : Q := 9000000000.

End AsyncJobs.

(** ** The per-user rate limit ([_rate_limited] in [handlers/admin.py]) *)

Module RateLimit.

(** [now - t < window_s] on time stamps in seconds; the float difference of
    two nearby time stamps is exact. *)
Definition recent (now window_s t : Q) : bool :=
  if Qlt_le_dec (now - t) window_s then true else false.

(** [_rate_limited(user_id, limit, window_s)] called at time [now] with the
    module-level dict [_rate_limits]; the result is the dict afterwards and
    the value returned. *)
Definition _rate_limited (now : Q) (user_id limit : Z) (window_s : Q)
    (_rate_limits : gmap Z (list Q)) : gmap Z (list Q) * bool :=
  let window := default [] (_rate_limits !! user_id) in
  let window := filter (fun t => recent now window_s t = true) window in
  if limit <=? Z.of_nat (length window) then
    (<[user_id := window]> _rate_limits, true)
  else
    (<[user_id := window ++ [now]]> _rate_limits, false).

(** One served call: who called, when, and whether it was refused. *)
Definition entry : Type := Z * Q * bool.

(** Serving the calls in order from a given dict, keeping a log. *)
Fixpoint serve (limit : Z) (window_s : Q) (requests : list (Z * Q))
    (_rate_limits : gmap Z (list Q)) (log : list entry)
  : gmap Z (list Q) * list entry :=
  match requests with
  | [] => (_rate_limits, log)
  | (user_id, now) :: rest =>
      let r := _rate_limited now user_id limit window_s _rate_limits in
      serve limit window_s rest r.1 (log ++ [(user_id, now, r.2)])
  end.

(** The times of the calls of a user that were let through. *)
Definition admitted (user_id : Z) (log : list entry) : list Q :=
  omap (fun e : entry =>
          if bool_decide (e.1.1 = user_id) && negb e.2 then Some e.1.2
          else None) log.

(** The clock does not go back: each call is no earlier than the one
    before, and the first no earlier than [start]. *)
Fixpoint in_order (start : Q) (requests : list (Z * Q)) : Prop :=
  match requests with
  | [] => True
  | (_, now) :: rest => (start <= now)%Q /\ in_order now rest
  end.

(** The time stamps of a list that are less than [window_s] old at [now]. *)
Definition fresh (now window_s : Q) (window : list Q) : list Q :=
  filter (fun t => recent now window_s t = true) window.

(** What the rule says about each call of a log: it is refused exactly when
    at least [limit] earlier calls of the same user that were let through
    are less than [window_s] old. *)
Definition by_the_rule (limit : Z) (window_s : Q) (log : list entry) : Prop :=
  forall pre user_id now r post,
    log = pre ++ (user_id, now, r) :: post ->
    r = bool_decide
          (limit
           <= Z.of_nat (length (fresh now window_s (admitted user_id pre)))).

(** The dict holds, for each user, the calls let through that were recent
    at the user's last call. *)
Definition tracks (window_s last : Q) (_rate_limits : gmap Z (list Q))
    (log : list entry) : Prop :=
  forall user_id, exists at_call,
    (at_call <= last)%Q
    /\ default [] (_rate_limits !! user_id)
       = fresh at_call window_s (admitted user_id log).

(** Any [limit + 1] consecutive time stamps of the list span at least
    [window_s]: the one [limit] places after another is at least [window_s]
    later. *)
Definition spaced (limit : Z) (window_s : Q) (times : list Q) : Prop :=
  forall i x y,
    times !! i = Some x -> times !! (i + Z.to_nat limit)%nat = Some y ->
    (window_s <= y - x)%Q.

(** The time stamps are in order and none is later than [last]. *)
Definition ascending (last : Q) (times : list Q) : Prop :=
  (forall x, x ∈ times -> (x <= last)%Q)
  /\ forall i j x y,
       (i <= j)%nat -> times !! i = Some x -> times !! j = Some y ->
       (x <= y)%Q.

(** Two users calling in turn, one call per second. *)
Definition two_callers : list (Z * Q) :=
  [(5, 10%Q); (6, 11%Q); (5, 12%Q); (5, 13%Q); (6, 14%Q); (5, 16%Q)].

End RateLimit.

(** ** The in-memory cache ([services/cache.py]) *)

Module MemoryCache.

Section Cache.

(** The cached values. *)
Context {V : Type}.

(** [_store] maps a key to the value and its expiry time ([None]: never),
    [_hits] and [_misses] count the calls of [get]. *)
Record State := mkState {
  _store : gmap string (V * option Q);
  _hits : nat;
  _misses : nat
}.

Definition empty : State := {| _store := ∅; _hits := 0; _misses := 0 |}.

(** [get(key)] at time [now]: the value, or [None] for a miss. *)
Definition get (now : Q) (key : string) (st : State) : State * option V :=
  match _store st !! key with
  | None =>
      ({| _store := _store st; _hits := _hits st;
          _misses := S (_misses st) |}, None)
  | Some (value, exp) =>
      if match exp with
         | Some exp => if Qlt_le_dec exp now then true else false
         | None => false
         end
      then
        ({| _store := delete key (_store st); _hits := _hits st;
            _misses := S (_misses st) |}, None)
      else
        ({| _store := _store st; _hits := S (_hits st);
            _misses := _misses st |}, Some value)
  end.

(** [set(key, value, ttl)] at time [now]: a [ttl] of 0 means no expiry. *)
Definition set (now : Q) (key : string) (value : V) (ttl : Z) (st : State)
  : State :=
  let exp := if ttl =? 0 then None else Some (now + inject_Z ttl)%Q in
  {| _store := <[key := (value, exp)]> (_store st); _hits := _hits st;
     _misses := _misses st |}.

Definition delete (key : string) (st : State) : State :=
  {| _store := base.delete key (_store st); _hits := _hits st;
     _misses := _misses st |}.

(** The keys the upload handler drops: those that start with
    [curriculum_] or [analytics_]. *)
Definition stale_key (k : string) : bool :=
  String.prefix "curriculum_" k || String.prefix "analytics_" k.

(** The invalidation in the upload handler: [delete] of
    ["curriculum_universities"], then of every key of the store that starts
    with one of the two prefixes. *)
Definition invalidate (st : State) : State :=
  foldl (fun st k => if stale_key k then delete k st else st)
    (delete "curriculum_universities" st)
    (map_to_list (_store (delete "curriculum_universities" st))).*1.

End Cache.

Arguments State : clear implicits.

(** A cache holding the university list for 60 seconds, a quiz for ever,
    and an analytics summary. *)
Definition warm : State string :=
  set 100 "analytics_quizzes" "summary" 30
    (set 100 "quiz_17" "questions" 0
       (set 100 "curriculum_universities" "list" 60 empty)).

End MemoryCache.

(** ** Extracting candidates ([services/ai_parser.py]) *)

Module AiParser.

Import Admin.

(** The dict [parse_mcqs_with_ai] returns. *)
Record Parsed := mkParsed {
  p_unit : option string;
  p_topic : option string;
  p_questions : list Candidate
}.

(** What one provider did: no API key configured, a call that raised (after
    its retries) or whose answer was not JSON, or a parsed answer. *)
Inductive provider :=
| NoKey
| Failed
| Answered (r : Parsed).

(** The line boundaries of [str.splitlines] on the Latin-1 range: LF, VT,
    FF, CR, FS, GS, RS and NEL. *)
Definition is_linebreak (c : ascii) : bool :=
  let n := nat_of_ascii c in
  ((10 <=? n) && (n <=? 13))%nat || ((28 <=? n) && (n <=? 30))%nat
  || (n =? 133)%nat.

(** [str.splitlines]: [line] is the part of the current line read so far.
    CR LF counts as one boundary, and a trailing boundary opens no further
    line. *)
Fixpoint splitlines_from (line s : string) : list string :=
  match s with
  | EmptyString => if bool_decide (line = EmptyString) then [] else [line]
  | String c r =>
      if is_linebreak c then
        line ::
          match r with
          | String c' r' =>
              if bool_decide (c = "013"%char) && bool_decide (c' = "010"%char)
              then splitlines_from EmptyString r'
              else splitlines_from EmptyString r
          | EmptyString => splitlines_from EmptyString r
          end
      else splitlines_from (line ++ String c EmptyString) r
  end.

Definition splitlines (s : string) : list string :=
  splitlines_from EmptyString s.

(** [[l.strip() for l in input_text.splitlines() if l.strip()]] *)
Definition nonblank_lines (input_text : string) : list string :=
  Py.strip <$>
    filter (fun l => Py.strip l <> EmptyString) (splitlines input_text).

(** The loop over the lines: the first line that ends with a question mark
    becomes the question, every other line an option while there are fewer
    than four. *)
Fixpoint scan (lines : list string) (q : string) (opts : list string)
  : string * list string :=
  match lines with
  | [] => (q, opts)
  | l :: rest =>
      if bool_decide (q = EmptyString) && Py.endswith_char l "?"
      then scan rest l opts
      else if (length opts <? 4)%nat then scan rest q (opts ++ [l])
      else scan rest q opts
  end.

(** The naive single-question detector used when no provider answers. *)
Definition naive_parse (input_text : string) : Parsed :=
  let lines := nonblank_lines input_text in
  let '(q, opts) := scan lines EmptyString [] in
  {| p_unit := None; p_topic := None;
     p_questions :=
       if negb (bool_decide (q = EmptyString)) && (4 <=? length opts)%nat
       then [ {| c_question := Some q;
                 c_options := Some (Some <$> take 4 opts);
                 c_correct_answer := None;
                 c_explanation := None;
                 c_source := None |} ]
       else [] |}.

Definition parse_mcqs_with_ai (openai gemini : provider)
    (input_text : string) : Parsed :=
  let input_text := Py.strip input_text in
  if bool_decide (input_text = EmptyString) then
    {| p_unit := None; p_topic := None; p_questions := [] |}
  else
    match openai with
    | Answered r => r
    | NoKey | Failed =>
        match gemini with
        | Answered r => r
        | NoKey | Failed => naive_parse input_text
        end
    end.

(** No provider gives an answer. *)
Definition unavailable (p : provider) : Prop := forall r, p <> Answered r.

(** The candidate the detector builds from a question line and the other
    lines. *)
Definition detected (q : string) (others : list string) : Candidate :=
  {| c_question := Some q;
     c_options := Some (Some <$> take 4 others);
     c_correct_answer := None;
     c_explanation := None;
     c_source := None |}.

(** A page with a heading, a question and four options. *)
Definition page : string :=
  ("Anatomy CAT 1" ++ String "010" "Which nerve supplies the deltoid?"
   ++ String "013" (String "010" "  Axillary ") ++ String "010" "Radial"
   ++ String "010" "" ++ String "010" "Median" ++ String "010" "Ulnar"
   ++ String "010" "")%string.

End AiParser.

(** ** What the validator hands on *)

Module Validated.

Import AIQuestionParser.

(** The dict [validated_question] the loop appends, as the next stage reads
    it. *)
Definition to_dict (v : ValidatedQuestion) : list (string * pyval) :=
  [("id", PNum (inject_Z (v_id v)));
   ("question_text", PStr (v_question_text v));
   ("options", PDict ((fun kv : string * string => (kv.1, PStr kv.2))
                        <$> v_options v));
   ("correct_answer", PStr (v_correct_answer v));
   ("explanation", PStr (v_explanation v));
   ("ai_confidence", v_ai_confidence v)]%string.

(** A text that [strip] leaves as it is. *)
Definition stripped (s : string) : Prop := Py.strip s = s.

(** A confidence as the clamp leaves it: a number between 0 and 1, a bool,
    or NaN, which passes the clamp unchanged. *)
Definition clamped (v : pyval) : Prop :=
  match v with
  | PNum (Finite q) => (0 <= q)%Q /\ (q <= 1)%Q
  | PNum NaN => True
  | PBool _ => True
  | _ => False
  end.

(** A cleaned question: a stripped text of at least 10 characters, the keys
    A to D in this order with stripped, non-empty texts, an upper-case
    letter A to D as answer, a stripped explanation and a clamped
    confidence. *)
Definition clean (v : ValidatedQuestion) : Prop :=
  stripped (v_question_text v)
  /\ (10 <= String.length (v_question_text v))%nat
  /\ (v_options v).*1 = letters_ABCD
  /\ Forall (fun kv : string * string =>
               stripped kv.2 /\ kv.2 <> EmptyString) (v_options v)
  /\ v_correct_answer v ∈ letters_ABCD
  /\ stripped (v_explanation v)
  /\ clamped (v_ai_confidence v).

(** The same question under another number. *)
Definition with_id (n : Z) (v : ValidatedQuestion) : ValidatedQuestion :=
  {| v_id := n;
     v_question_text := v_question_text v;
     v_options := v_options v;
     v_correct_answer := v_correct_answer v;
     v_explanation := v_explanation v;
     v_ai_confidence := v_ai_confidence v |}.

(** The questions numbered from [i + 1] on. *)
Fixpoint renumber_from (i : nat) (vs : list ValidatedQuestion)
  : list ValidatedQuestion :=
  match vs with
  | [] => []
  | v :: rest => with_id (Z.of_nat i + 1) v :: renumber_from (S i) rest
  end.

Definition renumber (vs : list ValidatedQuestion) : list ValidatedQuestion :=
  renumber_from 0 vs.

End Validated.
(** * Properties *)

(** ** Locking *)

Section Locking.

Import MultiAdminService BatchStore.

Variables (now batch_id : Z) (db : DB) (batch : UploadBatch).
Hypothesis Hbatch : batches db !! batch_id = Some batch.

Lemma lock_conflict_held (X Y t : Z) :
  locked_by batch = Some X -> X <> 0 -> X <> Y ->
  locked_at batch = Some t -> now - t < lock_timeout ->
  lock_conflict now Y batch = true.
Proof.
  intros HX H0 Hne Ht Hage. unfold lock_conflict.
  rewrite HX, Ht. cbn [Py.int_truthy].
  rewrite bool_decide_eq_false_2 by congruence.
  unfold total_seconds_lt, lock_timeout in *.
  apply andb_true_intro; split; [apply andb_true_intro; split |].
  - apply negb_true_iff, Z.eqb_neq, H0.
  - reflexivity.
  - apply Z.ltb_lt. lia.
Qed.

Lemma lock_conflict_no_timestamp (Y : Z) :
  locked_at batch = None -> lock_conflict now Y batch = false.
Proof.
  intros Ht. unfold lock_conflict. rewrite Ht. apply andb_false_r.
Qed.

(** C1 (as amended).  While admin [X], whose id is not 0, holds the lock of
    a batch and less than the 15-minute timeout has passed since the lock
    was acquired, the attempt of another admin [Y] to lock the batch fails:
    the database is returned unchanged (so the lock is still [X]'s) and the
    message is the fixed text followed by a name.  That name is the user
    name of [X] when [X] has a row in the users table with a user name that
    is not empty; it is the first name of that row when the user name is
    missing or empty ("None" when the first name is missing too); and it is
    "Unknown" when [X] has no row in the users table. *)
Theorem lock_refusal_gives_display_name (X Y t : Z) :
  locked_by batch = Some X -> X <> 0 -> X <> Y ->
  locked_at batch = Some t -> now - t < lock_timeout ->
  exists name,
    lock_batch_for_review now batch_id Y db
    = (db, {| success := false;
              message := (being_reviewed_by ++ name)%string |})
    /\ (users db !! X = None -> name = "Unknown"%string)
    /\ (forall u n,
          users db !! X = Some u -> username u = Some n ->
          n <> EmptyString -> name = n)
    /\ (forall u f,
          users db !! X = Some u ->
          username u = None \/ username u = Some EmptyString ->
          first_name u = Some f -> name = f)
    /\ (forall u,
          users db !! X = Some u ->
          username u = None \/ username u = Some EmptyString ->
          first_name u = None -> name = "None"%string).
Proof.
  intros HX H0 Hne Ht Hage.
  assert (Hc := lock_conflict_held X Y t HX H0 Hne Ht Hage).
  exists (locker_name (users db !! X)). split.
  { unfold lock_batch_for_review. rewrite Hbatch, Hc, HX. reflexivity. }
  unfold locker_name, Py.str_or, Py.str_truthy, Py.format_str.
  split; [by intros -> |]. split; [| split].
  - intros u n -> -> Hn. by rewrite bool_decide_eq_false_2.
  - intros u f -> [-> | ->] ->; reflexivity.
  - intros u -> [-> | ->] ->; reflexivity.
Qed.

(** C10.  A batch whose lock-holder is set but whose lock time stamp is
    null does not refuse anybody: the attempt of any admin [Y] succeeds at
    once and overwrites the lock with [Y] and the current time. *)
Theorem lock_without_timestamp_is_expired (X Y : Z) :
  locked_by batch = Some X -> locked_at batch = None ->
  lock_batch_for_review now batch_id Y db
  = (set_batches db
       (<[batch_id :=
            {| uploader_id := uploader_id batch; status := review;
               locked_by := Some Y; locked_at := Some now;
               questions_count := questions_count batch;
               created_at := created_at batch;
               completed_at := completed_at batch |}]> (batches db)),
     {| success := true; message := "Batch locked for review" |}).
Proof.
  intros _ Ht. unfold lock_batch_for_review.
  rewrite Hbatch, (lock_conflict_no_timestamp Y Ht). reflexivity.
Qed.

End Locking.

Lemma lock_refusal_gives_display_name_witness :
  exists name,
    MultiAdminService.lock_batch_for_review 60000000 1 6
      Examples.one_locked_batch
    = (Examples.one_locked_batch,
       {| MultiAdminService.success := false;
          MultiAdminService.message :=
            (MultiAdminService.being_reviewed_by ++ name)%string |})
    /\ (users Examples.one_locked_batch !! 5 = None
        -> name = "Unknown"%string)
    /\ (forall u n,
          users Examples.one_locked_batch !! 5 = Some u ->
          username u = Some n -> n <> EmptyString -> name = n)
    /\ (forall u f,
          users Examples.one_locked_batch !! 5 = Some u ->
          username u = None \/ username u = Some EmptyString ->
          first_name u = Some f -> name = f)
    /\ (forall u,
          users Examples.one_locked_batch !! 5 = Some u ->
          username u = None \/ username u = Some EmptyString ->
          first_name u = None -> name = "None"%string).
Proof.
  apply (lock_refusal_gives_display_name 60000000 1
           Examples.one_locked_batch (Examples.locked_batch 0 5 0))
    with (t := 0).
  - reflexivity.
  - reflexivity.
  - lia.
  - lia.
  - reflexivity.
  - vm_compute. reflexivity.
Defined.

(** C1 as stated fails.  Batch 1 is locked, one minute ago, by admin 8 in
    one database and by admin 9 in another; neither has a row in the users
    table.  Admin 6 is refused in both, with one and the same message, which
    ends in "@Unknown": the message does not tell who holds the lock.  A
    holder whose row has neither user name nor first name is shown as
    "@None". *)
Lemma lock_refusal_need_not_name_holder :
  let refusal db := MultiAdminService.lock_batch_for_review 60000000 1 6 db in
  let by_8 := Examples.locked_by_admin 8 Examples.people in
  let by_9 := Examples.locked_by_admin 9 Examples.people in
  let by_nameless :=
    Examples.locked_by_admin 8 (<[8 := Examples.nameless]> Examples.people) in
  locked_by <$> batches by_8 !! 1 = Some (Some 8)
  /\ locked_by <$> batches by_9 !! 1 = Some (Some 9)
  /\ refusal by_8
     = (by_8, {| MultiAdminService.success := false;
                 MultiAdminService.message :=
                   "⚠️ This batch is currently being reviewed by @Unknown" |})
  /\ (refusal by_9).2 = (refusal by_8).2
  /\ (refusal by_nameless).2
     = {| MultiAdminService.success := false;
          MultiAdminService.message :=
            "⚠️ This batch is currently being reviewed by @None" |}.
Proof. vm_compute. repeat split. Qed.

(** The lock-holder column is tested by truth value: a holder with id 0
    holds nothing, and the batch goes to whoever asks. *)
Lemma lock_held_by_id_zero_is_taken :
  (MultiAdminService.lock_batch_for_review 60000000 1 6
     (Examples.locked_by_admin 0 Examples.people)).2
  = {| MultiAdminService.success := true;
       MultiAdminService.message := "Batch locked for review" |}.
Proof. vm_compute. reflexivity. Qed.

Lemma lock_without_timestamp_is_expired_witness :
  MultiAdminService.lock_batch_for_review 60000000 1 6
    Examples.one_untimed_lock
  = (set_batches Examples.one_untimed_lock
       (<[1 := {| uploader_id := 7; status := review;
                  locked_by := Some 6; locked_at := Some 60000000;
                  questions_count := 1; created_at := 0;
                  completed_at := None |}]>
          (batches Examples.one_untimed_lock)),
     {| MultiAdminService.success := true;
        MultiAdminService.message := "Batch locked for review" |}).
Proof.
  apply (lock_without_timestamp_is_expired 60000000 1
           Examples.one_untimed_lock Examples.untimed_batch) with (X := 5).
  - reflexivity.
  - reflexivity.
  - reflexivity.
Defined.

(** ** The lock invariant *)

Section Invariant.

Import MultiAdminService BatchStore.

Local Ltac keep_invariant Hinv :=
  first
    [ exact Hinv
    | apply map_Forall_insert_2;
      [cbn; first [congruence | tauto] | exact Hinv] ].

Lemma create_keeps_invariant now uploader count db :
  lock_invariant db ->
  lock_invariant (create_upload_batch now uploader count db).1.
Proof.
  intros Hinv. unfold lock_invariant, create_upload_batch. cbn.
  keep_invariant Hinv.
Qed.

Lemma lock_keeps_invariant now batch_id admin_id db :
  lock_invariant db ->
  lock_invariant (lock_batch_for_review now batch_id admin_id db).1.
Proof.
  intros Hinv. unfold lock_invariant, lock_batch_for_review.
  destruct (batches db !! batch_id) as [batch|]; [| exact Hinv].
  destruct (lock_conflict now admin_id batch); cbn; keep_invariant Hinv.
Qed.

Lemma unlock_keeps_invariant batch_id admin_id db :
  lock_invariant db ->
  lock_invariant (unlock_batch batch_id admin_id db).1.
Proof.
  intros Hinv. unfold lock_invariant, unlock_batch.
  destruct (batches db !! batch_id) as [batch|]; [| exact Hinv].
  case_bool_decide; cbn; keep_invariant Hinv.
Qed.

Lemma approve_keeps_invariant now batch_id admin_id db :
  lock_invariant db ->
  lock_invariant (approve_batch now batch_id admin_id db).1.
Proof.
  intros Hinv. unfold lock_invariant, approve_batch.
  destruct (batches db !! batch_id) as [batch|]; [| exact Hinv].
  case_bool_decide; cbn; keep_invariant Hinv.
Qed.

Lemma reject_keeps_invariant now batch_id admin_id db :
  lock_invariant db ->
  lock_invariant (reject_batch now batch_id admin_id db).1.
Proof.
  intros Hinv. unfold lock_invariant, reject_batch.
  destruct (batches db !! batch_id) as [batch|]; [| exact Hinv].
  case_bool_decide; cbn; keep_invariant Hinv.
Qed.

Lemma cleanup_keeps_invariant now db :
  lock_invariant db ->
  lock_invariant (cleanup_expired_locks now db).1.
Proof.
  intros Hinv. unfold lock_invariant, cleanup_expired_locks. cbn.
  apply map_Forall_fmap. intros k b Hb. cbn.
  destruct (expired now b); cbn; [congruence |].
  exact (Hinv k b Hb).
Qed.

(** C7.  Every operation of the batch store, run at any time on any
    database in which each batch with a lock-holder is in review, leaves a
    database with the same property. *)
Theorem lock_invariant_preserved (now : Z) (o : op) (db : DB) :
  lock_invariant db -> lock_invariant (run now o db).
Proof.
  intros Hinv. destruct o; cbn [run].
  - by apply create_keeps_invariant.
  - by apply lock_keeps_invariant.
  - by apply unlock_keeps_invariant.
  - by apply approve_keeps_invariant.
  - by apply reject_keeps_invariant.
  - by apply cleanup_keeps_invariant.
Qed.

(** The invariant therefore holds along every history that starts from the
    empty store. *)
Lemma lock_invariant_reachable (history : list (Z * op)) (db : DB) :
  lock_invariant db -> lock_invariant (run_all history db).
Proof.
  revert db. induction history as [|[now o] rest IH]; intros db Hinv.
  - exact Hinv.
  - cbn. apply IH. destruct o; cbn [run];
      eauto using create_keeps_invariant, lock_keeps_invariant,
        unlock_keeps_invariant, approve_keeps_invariant,
        reject_keeps_invariant, cleanup_keeps_invariant.
Qed.

Lemma lock_invariant_preserved_witness :
  lock_invariant (run 960000000 OpCleanup Examples.one_locked_batch).
Proof.
  apply (lock_invariant_preserved 960000000 OpCleanup
           Examples.one_locked_batch).
  refine (bool_decide_unpack _ _). by vm_compute.
Defined.

End Invariant.

(** ** The expiry sweep *)

Section Sweep.

Import MultiAdminService BatchStore.

Lemma release_not_expired now b : expired now (release b) = false.
Proof. reflexivity. Qed.

(** What the sweep does to each batch. *)
Lemma cleanup_lookup now db k :
  batches (cleanup_expired_locks now db).1 !! k
  = (fun b => if expired now b then release b else b) <$> batches db !! k.
Proof. cbn. apply lookup_fmap. Qed.

(** The sweep touches nothing but the batches table. *)
Lemma cleanup_frame now db :
  users (cleanup_expired_locks now db).1 = users db
  /\ questions (cleanup_expired_locks now db).1 = questions db.
Proof. split; reflexivity. Qed.

(** A batch is swept exactly when it is in review and its lock is strictly
    older than the timeout. *)
Lemma expired_iff now b :
  expired now b = true
  <-> status b = review
      /\ exists t, locked_at b = Some t /\ lock_timeout < now - t.
Proof.
  unfold expired, lock_timeout, timedelta_minutes.
  rewrite andb_true_iff, bool_decide_eq_true.
  destruct (locked_at b) as [t|].
  - rewrite Z.ltb_lt. split.
    + intros [Hlt Hst]. split; [exact Hst |]. exists t. split; [done | lia].
    + intros [Hst (t' & [= <-] & Hlt)]. split; [lia | exact Hst].
  - split; [intros [? _]; discriminate | intros [_ (t & ? & _)]; discriminate].
Qed.

Lemma count_nothing {A} (h : Z -> A -> Z -> Z) (m : gmap Z A) :
  (forall k x n, m !! k = Some x -> h k x n = n) -> map_fold h 0 m = 0.
Proof.
  induction m as [|k x m Hk Hfold IH] using map_fold_fmap_ind; intros Hh.
  - apply map_fold_empty.
  - rewrite <- (map_fmap_id m) at 1. rewrite Hfold, map_fmap_id.
    rewrite Hh by apply lookup_insert_eq.
    apply IH. intros k' x' n Hk'. apply Hh.
    rewrite lookup_insert_ne; [exact Hk' | congruence].
Qed.

(** The number the sweep returns is the number of batches it released. *)
Lemma cleanup_count now db :
  (cleanup_expired_locks now db).2
  = Z.of_nat (size (filter (fun kb => expired now kb.2 = true) (batches db))).
Proof.
  cbn. generalize (batches db). intros m.
  induction m as [|k x m Hk Hfold IH] using map_fold_fmap_ind.
  - rewrite map_fold_empty, map_filter_empty, map_size_empty. reflexivity.
  - rewrite <- (map_fmap_id m) at 1. rewrite Hfold, map_fmap_id, IH.
    destruct (expired now x) eqn:Hx.
    + rewrite map_filter_insert_True by exact Hx.
      rewrite map_size_insert_None; [lia |].
      apply map_lookup_filter_None. left. exact Hk.
    + rewrite map_filter_insert_not'; [reflexivity | cbn; congruence |].
      intros y Hy. congruence.
Qed.

(** Sweeping twice at the same instant: the second sweep changes nothing
    and counts nothing. *)
Lemma cleanup_idempotent now db :
  cleanup_expired_locks now (cleanup_expired_locks now db).1
  = ((cleanup_expired_locks now db).1, 0).
Proof.
  unfold cleanup_expired_locks at 1. f_equal.
  - cbn. unfold set_batches. cbn. f_equal.
    rewrite <- map_fmap_compose. apply map_fmap_ext. intros k b _. cbn.
    destruct (expired now b) eqn:Hb; [reflexivity |]. by rewrite Hb.
  - apply count_nothing. intros k b n Hb.
    rewrite cleanup_lookup in Hb.
    destruct (batches db !! k) as [b0|]; [| discriminate].
    injection Hb as <-.
    destruct (expired now b0) eqn:Hb0; [reflexivity |]. by rewrite Hb0.
Qed.

(** C8.  A lock that is exactly 15 minutes old (taken at time 0, swept at
    900 s) is expired for [lock_batch_for_review], which lets another admin
    take the batch at that instant, yet the sweep run at the same instant
    leaves the batch locked and in review and reports 0 batches cleaned. *)
Theorem sweep_misses_lock_aged_exactly_timeout :
  let now := lock_timeout in
  batches Examples.one_locked_batch !! 1 = Some (Examples.locked_batch 0 5 0)
  /\ now - 0 >= lock_timeout
  /\ cleanup_expired_locks now Examples.one_locked_batch
     = (Examples.one_locked_batch, 0)
  /\ (lock_batch_for_review now 1 6 Examples.one_locked_batch).2.(success)
     = true.
Proof. vm_compute. repeat split; congruence. Qed.

End Sweep.

(** ** Terminal transitions of a batch *)

Section Terminal.

Import MultiAdminService BatchStore.

Variables (now batch_id admin_id : Z) (db : DB).

(** Only the lock-holder gets through. *)
Lemma approve_needs_lock :
  (approve_batch now batch_id admin_id db).2.(success) = true ->
  exists batch,
    batches db !! batch_id = Some batch /\ locked_by batch = Some admin_id.
Proof.
  unfold approve_batch.
  destruct (batches db !! batch_id) as [batch|]; [| discriminate].
  case_bool_decide; [| discriminate]. eauto.
Qed.

Lemma reject_needs_lock :
  (reject_batch now batch_id admin_id db).2.(success) = true ->
  exists batch,
    batches db !! batch_id = Some batch /\ locked_by batch = Some admin_id.
Proof.
  unfold reject_batch.
  destruct (batches db !! batch_id) as [batch|]; [| discriminate].
  case_bool_decide; [| discriminate]. eauto.
Qed.

(** What a successful approval writes: the batch is completed with the
    lock cleared, and the rows the query selects (same uploader, created no
    earlier than the batch) are all activated; every other row is kept. *)
Lemma approve_effect batch :
  batches db !! batch_id = Some batch -> locked_by batch = Some admin_id ->
  let db' := (approve_batch now batch_id admin_id db).1 in
  batches db' !! batch_id = Some (complete now approved batch)
  /\ forall k,
       questions db' !! k
       = (fun q => if batch_question batch q then decide_question true q
                   else q) <$> questions db !! k.
Proof.
  intros Hb Hl. unfold approve_batch. rewrite Hb.
  rewrite bool_decide_eq_true_2 by exact Hl. cbn. split.
  - apply lookup_insert_eq.
  - intros k. apply lookup_fmap.
Qed.

Lemma reject_effect batch :
  batches db !! batch_id = Some batch -> locked_by batch = Some admin_id ->
  let db' := (reject_batch now batch_id admin_id db).1 in
  batches db' !! batch_id = Some (complete now rejected batch)
  /\ forall k,
       questions db' !! k
       = (fun q => if batch_question batch q then decide_question false q
                   else q) <$> questions db !! k.
Proof.
  intros Hb Hl. unfold reject_batch. rewrite Hb.
  rewrite bool_decide_eq_true_2 by exact Hl. cbn. split.
  - apply lookup_insert_eq.
  - intros k. apply lookup_fmap.
Qed.

End Terminal.

(** C2.  Uploader 7 has batches 1 and 2, both under review by admin 5, and
    question 50, created after both batches.  To whichever batch question 50
    is taken to belong, approving the other batch succeeds and rewrites
    question 50, and so does rejecting the other batch: the decision reaches
    a row outside the batch it is taken on. *)
Theorem batch_decision_reaches_other_batches (owner : Z -> Z) :
  exists batch_id,
    owner 50 <> batch_id
    /\ (MultiAdminService.approve_batch 400 batch_id 5
          Examples.two_batches).2.(MultiAdminService.success) = true
    /\ questions (MultiAdminService.approve_batch 400 batch_id 5
                    Examples.two_batches).1 !! 50
       <> questions Examples.two_batches !! 50
    /\ (MultiAdminService.reject_batch 400 batch_id 5
          Examples.two_batches).2.(MultiAdminService.success) = true
    /\ questions (MultiAdminService.reject_batch 400 batch_id 5
                    Examples.two_batches).1 !! 50
       <> questions Examples.two_batches !! 50.
Proof.
  destruct (decide (owner 50 = 1)) as [H1|H1].
  - exists 2. split; [lia |]. vm_compute. repeat split; congruence.
  - exists 1. split; [exact H1 |]. vm_compute. repeat split; congruence.
Qed.

(** ** Candidate validation *)

Section Validation.

Import AIQuestionParser CandidateRule.

Lemma clean_options_length keys options cleaned :
  clean_options keys options = Done cleaned ->
  (length cleaned <= length keys)%nat.
Proof.
  revert cleaned. induction keys as [|key rest IH]; intros cleaned; cbn.
  - intros [= <-]. cbn. lia.
  - destruct (as_str _) as [s| |]; cbn; try discriminate.
    destruct (clean_options rest options) as [cl| |]; cbn; try discriminate.
    specialize (IH cl eq_refl).
    case_bool_decide; intros [= <-]; cbn; lia.
Qed.

Lemma clean_options_full keys options :
  (exists cleaned, clean_options keys options = Done cleaned
                   /\ length cleaned = length keys)
  <-> Forall (fun k => exists s, Dict.get k options = Some (PStr s)
                                 /\ Py.strip s <> EmptyString) keys.
Proof.
  induction keys as [|key rest IH]; cbn.
  - split; [constructor | intros _; exists []; done].
  - split.
    + intros (cleaned & Hc & Hlen).
      destruct (Dict.get key options) as [[| | |s| |]|] eqn:Hget;
        cbn in Hc; try discriminate.
      * destruct (clean_options rest options) as [cl| |] eqn:Hrest;
          cbn in Hc; try discriminate.
        assert (Hle := clean_options_length rest options cl Hrest).
        case_bool_decide as Hs; injection Hc as <-; cbn in Hlen; [lia |].
        constructor; [eauto |]. apply IH. exists cl. split; [done | lia].
      * destruct (clean_options rest options) as [cl| |] eqn:Hrest;
          cbn in Hc; try discriminate.
        assert (Hle := clean_options_length rest options cl Hrest).
        injection Hc as <-. lia.
    + intros Hall. inversion Hall as [|? ? (s & Hget & Hs) Hrest]; subst.
      apply IH in Hrest as (cl & Hcl & Hlen).
      rewrite Hget, Hcl. cbn.
      rewrite bool_decide_eq_false_2 by exact Hs.
      eexists. split; [reflexivity | cbn; lia].
Qed.

Lemma has_spec {A} k (d : list (string * A)) :
  Dict.has k d = true <-> is_Some (Dict.get k d).
Proof. unfold Dict.has. apply bool_decide_eq_true. Qed.

Local Ltac run_in H :=
  cbn [mbind outcome_bind as_str clamp_confidence default from_option id negb]
    in H.
Local Ltac run := cbn [mbind outcome_bind as_str clamp_confidence default
                       from_option id negb].

(** The loop body accepts a candidate exactly when the rule holds. *)
Lemma validate_question_accepts i c :
  (exists v, validate_question i c = Done v) <-> code_valid c.
Proof.
  unfold validate_question, code_valid, optional, is_str, is_number. split.
  - intros (v & Hv).
    destruct (forallb _ _) eqn:Hkeys; [| discriminate].
    destruct (Dict.get "options" c) as [[| | | | |options]|] eqn:Hopt;
      run_in Hv; try discriminate.
    case_bool_decide as Hlen; [| discriminate].
    destruct (Dict.get "correct_answer" c) as [[| | |answer| |]|] eqn:Hans;
      run_in Hv; try discriminate.
    case_bool_decide as Hletter; [| discriminate].
    destruct (Dict.get "question_text" c) as [[| | |text| |]|] eqn:Htext;
      run_in Hv; try discriminate.
    destruct (String.length (Py.strip text) <? 10)%nat eqn:Hshort;
      run_in Hv; [discriminate |].
    apply Nat.ltb_ge in Hshort.
    destruct (clean_options letters_ABCD options) as [cleaned| |] eqn:Hcl;
      run_in Hv; try discriminate.
    case_bool_decide as Hfour; [| discriminate].
    exists text, options, answer. repeat split; try done.
    + apply clean_options_full. eauto.
    + intros w Hw. rewrite Hw in Hv.
      destruct w; run_in Hv; try discriminate. eauto.
    + intros w Hw.
      destruct (Dict.get "explanation" c) as [[| | |e| |]|];
        run_in Hv; try discriminate;
        rewrite Hw in Hv; destruct w; run_in Hv; try discriminate; eauto.
  - intros (text & options & answer & Htext & Hlong & Hopt & Hlen & Hall
            & Hans & Hletter & Hexp & Hconf).
    assert (Hkeys : forallb (fun key => Dict.has key c)
              ["question_text"; "options"; "correct_answer"]%string = true).
    { cbn. rewrite !andb_true_iff. repeat split; try apply has_spec; eauto. }
    rewrite Hkeys, Hopt. run.
    rewrite bool_decide_eq_true_2 by exact Hlen.
    rewrite Hans. run.
    rewrite bool_decide_eq_true_2 by exact Hletter.
    rewrite Htext. run.
    apply Nat.ltb_ge in Hlong. rewrite Hlong. run.
    apply clean_options_full in Hall as (cleaned & -> & Hfour). run.
    rewrite bool_decide_eq_true_2 by exact Hfour.
    destruct (Dict.get "explanation" c) as [e|] eqn:He.
    + destruct (Hexp e eq_refl) as [s ->]. run.
      destruct (Dict.get "ai_confidence" c) as [a|] eqn:Ha.
      * destruct (Hconf a eq_refl) as [[q ->]|[b ->]]; run; eauto.
      * run. eauto.
    + run. destruct (Dict.get "ai_confidence" c) as [a|] eqn:Ha.
      * destruct (Hconf a eq_refl) as [[q ->]|[b ->]]; run; eauto.
      * run. eauto.
Qed.

Lemma validate_question_id i c v :
  validate_question i c = Done v -> v_id v = Z.of_nat i + 1.
Proof.
  unfold validate_question. intros H.
  repeat match type of H with
         | (if ?b then _ else _) = _ => destruct b; [| discriminate]
         | (match ?x with _ => _ end) = _ => destruct x; try discriminate
         | (?m ≫= _) = _ =>
             destruct m; cbn [mbind outcome_bind] in H; try discriminate
         end.
  by injection H as <-.
Qed.

(** The output holds exactly the accepted candidates, in order. *)
Lemma elem_of_validate_from v questions i :
  v ∈ validate_from i questions
  <-> exists j c, questions !! j = Some c
                  /\ validate_question (i + j) c = Done v.
Proof.
  revert i. induction questions as [|c rest IH]; intros i; cbn.
  - split; [by intros ?%elem_of_nil | by intros (j & c & ? & _)].
  - assert (Hrest : v ∈ validate_from (S i) rest
             <-> exists j c', (c :: rest) !! S j = Some c'
                              /\ validate_question (i + S j) c' = Done v).
    { rewrite IH. by setoid_rewrite Nat.add_succ_r. }
    split.
    + intros Hin.
      assert (Hcase : validate_question i c = Done v
                      \/ v ∈ validate_from (S i) rest).
      { destruct (validate_question i c) as [v0| |];
          [apply elem_of_cons in Hin as [->|]|..]; auto. }
      destruct Hcase as [Hhead|Htail].
      * exists 0%nat, c. by rewrite Nat.add_0_r.
      * apply Hrest in Htail as (j & c' & ? & ?). eauto.
    + intros ([|j] & c' & Hj & Hv).
      * cbn in Hj. injection Hj as <-. rewrite Nat.add_0_r in Hv.
        rewrite Hv. apply list_elem_of_here.
      * assert (Htail : v ∈ validate_from (S i) rest) by (apply Hrest; eauto).
        destruct (validate_question i c); [apply list_elem_of_further |..];
          exact Htail.
Qed.

End Validation.

(** C3 (as amended).  The candidate at position [i] of the input has an
    entry in the validated output, the one numbered [i + 1], if and only if
    its stripped question text has at least 10 characters, its options are
    a dict of exactly four entries with non-blank strings under the keys A,
    B, C and D, its correct answer is one of the letters A to D in either
    case, and its optional explanation and confidence are a string and a
    number; every other candidate is left out. *)
Theorem validated_iff_code_valid
    (questions : list (list (string * pyval))) (i : nat)
    (c : list (string * pyval)) :
  questions !! i = Some c ->
  (exists v, v ∈ AIQuestionParser._validate_questions questions
             /\ AIQuestionParser.v_id v = Z.of_nat i + 1)
  <-> CandidateRule.code_valid c.
Proof.
  intros Hi. unfold AIQuestionParser._validate_questions.
  rewrite <- (validate_question_accepts i c). split.
  - intros (v & Hin & Hid).
    apply elem_of_validate_from in Hin as (j & c' & Hj & Hv). cbn in Hv.
    assert (Hid' := validate_question_id j c' v Hv).
    assert (j = i) as -> by lia.
    assert (c' = c) as -> by congruence. eauto.
  - intros (v & Hv). exists v. split.
    + apply elem_of_validate_from. exists i, c. by split.
    + by apply validate_question_id with c.
Qed.

Lemma validated_iff_code_valid_witness :
  (exists v, v ∈ AIQuestionParser._validate_questions
                   [CandidateRule.answer_by_letter]
             /\ AIQuestionParser.v_id v = Z.of_nat 0 + 1)
  <-> CandidateRule.code_valid CandidateRule.answer_by_letter.
Proof.
  apply (validated_iff_code_valid [CandidateRule.answer_by_letter] 0).
  reflexivity.
Defined.

(** C3 as stated fails.  A complete candidate whose question text is the
    four characters "Why?", and a complete candidate whose answer is given
    as the text of option B, both satisfy the rule in the words of the
    specification, and the validator drops both. *)
Lemma spec_valid_candidates_dropped :
  CandidateRule.spec_valid CandidateRule.short_question
  /\ AIQuestionParser._validate_questions [CandidateRule.short_question] = []
  /\ CandidateRule.spec_valid CandidateRule.answer_by_text
  /\ AIQuestionParser._validate_questions [CandidateRule.answer_by_text] = [].
Proof.
  assert (Hopts : forall k v,
    Dict.get k [("A", PStr "Axillary"); ("B", PStr "Radial");
                ("C", PStr "Median"); ("D", PStr "Ulnar")]%string = Some v ->
    exists s, v = PStr s /\ s <> EmptyString).
  { intros k v. cbn. repeat case_bool_decide; intros [= <-]; eauto. }
  split; [| split; [reflexivity | split; [| reflexivity]]].
  - eexists "Why?"%string, _, "A"%string.
    repeat split; try reflexivity; try done; try exact Hopts.
    left. vm_compute. apply list_elem_of_here.
  - eexists _, _, "radial"%string.
    repeat split; try reflexivity; try done; try exact Hopts.
    right. exists "B"%string, "Radial"%string. split; reflexivity.
Qed.

(** ** The heuristic fallback of the scorer *)

Section Fallback.

Import Moderation FallbackRule.

Lemma no_provider_runs_heuristic openai gemini question_data :
  unavailable openai -> unavailable gemini ->
  moderate_question_with_ai openai gemini question_data
  = heuristic question_data.
Proof.
  intros Ho Hg. unfold moderate_question_with_ai.
  destruct openai as [| |r]; [| |by destruct (Ho r)];
    (destruct gemini as [| |r]; [| |by destruct (Hg r)]); reflexivity.
Qed.

(** C6 (as amended).  When no provider answers, a candidate whose question
    text is a string and whose options can be counted gets score 75 and
    action accept if the text, with surrounding white space removed, ends
    with a question mark and there are at least 4 options; otherwise it gets
    score 50 and action flag. *)
Theorem heuristic_fallback_verdict (openai gemini : provider)
    (question_data : list (string * pyval)) (qtext : string) (n : nat) :
  unavailable openai -> unavailable gemini ->
  heuristic_qtext question_data = Some qtext ->
  py_len (heuristic_opts question_data) = Some n ->
  exists r,
    moderate_question_with_ai openai gemini question_data = Some r
    /\ if Py.endswith_char qtext "?" && (4 <=? n)%nat
       then accepted r else flagged r.
Proof.
  intros Ho Hg Hq Hn.
  rewrite no_provider_runs_heuristic by assumption.
  unfold heuristic. rewrite Hq. cbn [mbind option_bind].
  destruct (Py.endswith_char qtext "?").
  - rewrite Hn. cbn [mbind option_bind andb].
    destruct (4 <=? n)%nat; eexists; (split; [reflexivity |]); by split.
  - eexists. split; [reflexivity |]. by split.
Qed.

Lemma heuristic_fallback_verdict_witness :
  exists r,
    moderate_question_with_ai NoKey Failed four_options = Some r
    /\ if Py.endswith_char "Which nerve supplies the deltoid muscle?" "?"
          && (4 <=? 4)%nat
       then accepted r else flagged r.
Proof.
  apply (heuristic_fallback_verdict NoKey Failed four_options
           "Which nerve supplies the deltoid muscle?" 4).
  - intros r. discriminate.
  - intros r. discriminate.
  - reflexivity.
  - reflexivity.
Defined.

(** C6 as stated fails: a question that ends with a question mark and has
    five options, not exactly four, gets score 75 and action accept. *)
Lemma five_options_accepted :
  py_len (heuristic_opts five_options) = Some 5%nat
  /\ exists r, moderate_question_with_ai NoKey NoKey five_options = Some r
               /\ accepted r /\ ~ flagged r.
Proof.
  split; [reflexivity |]. eexists. split; [reflexivity |].
  split; [by split |]. intros [? _]. discriminate.
Qed.

End Fallback.

(** ** The review commit path *)

Section Commit.

Import Moderation Admin AnswerRule Counters.

Lemma index_lookup x l i : index x l = Some i -> l !! i = Some x.
Proof.
  revert i. induction l as [|y r IH]; intros i; cbn; [discriminate |].
  case_bool_decide as Hy.
  - intros [= <-]. by rewrite Hy.
  - destruct (index x r) as [j|]; cbn; [| discriminate].
    intros [= <-]. by apply IH.
Qed.

Lemma normalised_options_lookup options texts i t :
  normalised_options options = Some texts -> texts !! i = Some t ->
  exists o, options !! i = Some (Some o) /\ Py.lower (Py.strip o) = t.
Proof.
  intros Hn Ht. apply mapM_Some_1 in Hn.
  destruct (Forall2_lookup_r _ _ _ _ _ Hn Ht) as ([o|] & Ho & Hf);
    cbn in Hf; [| discriminate].
  exists o. split; [exact Ho | congruence].
Qed.

(** An answer that cannot be resolved is mapped to "A". *)
Lemma map_correct_option_unresolvable correct options :
  unresolvable correct options ->
  _map_correct_option correct options = "A"%string.
Proof.
  unfold unresolvable, _map_correct_option.
  intros [-> | [-> | (s & -> & Hletter & Hmatch)]]; [reflexivity ..|].
  destruct (Py.str_truthy (Some s)); [| reflexivity].
  cbn [negb default from_option id].
  rewrite bool_decide_eq_false_2 by exact Hletter.
  destruct (normalised_options options) as [texts|] eqn:Hn; [| reflexivity].
  destruct (index (Py.lower (Py.strip s)) texts) as [idx|] eqn:Hidx;
    [| reflexivity].
  exfalso. apply Hmatch.
  apply index_lookup in Hidx.
  destruct (normalised_options_lookup _ _ _ _ Hn Hidx) as (o & Ho & Heq).
  exists o. split; [| exact Heq]. by apply list_elem_of_lookup_2 with idx.
Qed.

(** A fresh primary key is larger than every key in use. *)
Lemma next_id_above {A} (m : gmap Z A) k : is_Some (m !! k) -> k < next_id m.
Proof.
  unfold next_id. revert k.
  apply (map_fold_weak_ind
           (fun r (m : gmap Z A) => forall k, is_Some (m !! k) -> k < 1 + r)).
  - intros k [x Hx]. by rewrite lookup_empty in Hx.
  - intros i x m' r Hi IH k Hk.
    destruct (decide (i = k)) as [->|Hne]; [lia |].
    rewrite lookup_insert_ne in Hk by exact Hne. specialize (IH k Hk). lia.
Qed.

Lemma next_id_fresh {A} (m : gmap Z A) : m !! next_id m = None.
Proof.
  destruct (m !! next_id m) eqn:H; [| reflexivity].
  assert (next_id m < next_id m) by (apply next_id_above; eauto). lia.
Qed.

(** The row [scalar_one_or_none] returns is a row of the table. *)
Lemma scalar_one_lookup name (us : gmap Z User) uid u :
  scalar_one_or_none (users_named name us) = Some (Some (uid, u)) ->
  us !! uid = Some u.
Proof.
  unfold scalar_one_or_none.
  destruct (users_named name us) as [|row [|]] eqn:Hrows; try discriminate.
  intros [= ->].
  assert (Hin : (uid, u) ∈ users_named name us)
    by (rewrite Hrows; apply list_elem_of_here).
  apply list_elem_of_filter in Hin as [_ Hin].
  by apply elem_of_map_to_list in Hin.
Qed.

(** The constructor call never returns: [correct_answer] is not an
    attribute of [Question]. *)
Lemma new_question_raises topic q name needs_review' mscore mcomments :
  new_question topic q name needs_review' mscore mcomments = None.
Proof.
  unfold new_question.
  repeat match goal with
         | |- (?x ≫= _) = None =>
             destruct x; cbn [mbind option_bind]; [| reflexivity]
         end.
  reflexivity.
Qed.

Variable add_and_commit : instance -> DB -> option DB.

(** The commit path returns in two cases only: without a topic, and after
    a rejection, whose counters it stores. *)
Lemma insert_returns openai gemini topic q tg db r :
  _insert_question_with_moderation add_and_commit openai gemini topic q tg db
  = Some r ->
  (topic = None
   /\ r = (db, "No topics found. Please create a topic first."%string))
  \/ exists m uploader_user,
       action_of m = "reject"%string
       /\ scalar_one_or_none (users_named (Py.str_or tg None) (users db))
          = Some uploader_user
       /\ r = (set_users db
                 match uploader_user with
                 | Some (uid, u) =>
                     <[uid := count_upload true false (m_score m) u]>
                       (users db)
                 | None => users db
                 end,
               "❌ Rejected by AI moderation."%string).
Proof.
  unfold _insert_question_with_moderation.
  destruct topic as [topic|]; [| intros [= <-]; by left].
  destruct (moderate_question_with_ai _ _ _) as [m|];
    cbn [mbind option_bind]; [| discriminate].
  destruct (scalar_one_or_none _) as [uploader_user|] eqn:Hu;
    cbn [mbind option_bind]; [| discriminate].
  destruct (decide (action_of m = "reject"%string)) as [Hreject|Hreject].
  - rewrite (bool_decide_eq_true_2 _ Hreject). intros [= <-].
    right. exists m, uploader_user.
    split; [exact Hreject |]. split; [reflexivity |].
    by destruct uploader_user as [[uid u]|].
  - rewrite (bool_decide_eq_false_2 _ Hreject), new_question_raises.
    discriminate.
Qed.

(** Whatever is confirmed, no question is stored and no batch changes. *)
Lemma confirm_stores_no_question is_admin openai gemini topic candidates idx
    tg db :
  let r := admin_review_confirm add_and_commit is_admin openai gemini topic
             candidates idx tg db in
  questions (r_db r) = questions db /\ batches (r_db r) = batches db.
Proof.
  cbn zeta. unfold admin_review_confirm.
  destruct is_admin; cbn [negb]; [| by split].
  destruct (candidates !! idx) as [q|]; [| by split].
  destruct (_insert_question_with_moderation _ _ _ _ _ _ _) as [r|] eqn:Hr;
    [| by split].
  apply insert_returns in Hr
    as [[_ ->] | (m & uploader_user & _ & _ & ->)]; by split.
Qed.

(** Whatever is confirmed, no user's approved count, flagged count or
    stored average changes. *)
Lemma confirm_counts_no_approval is_admin openai gemini topic candidates idx
    tg db uid :
  let r := admin_review_confirm add_and_commit is_admin openai gemini topic
             candidates idx tg db in
  approved_count <$> users (r_db r) !! uid
  = approved_count <$> users db !! uid
  /\ flagged_count <$> users (r_db r) !! uid
     = flagged_count <$> users db !! uid
  /\ average_moderation_score <$> users (r_db r) !! uid
     = average_moderation_score <$> users db !! uid.
Proof.
  cbn zeta. unfold admin_review_confirm.
  destruct is_admin; cbn [negb]; [| by repeat split].
  destruct (candidates !! idx) as [q|]; [| by repeat split].
  destruct (_insert_question_with_moderation _ _ _ _ _ _ _) as [r|] eqn:Hr;
    [| by repeat split].
  apply insert_returns in Hr
    as [[_ ->] | (m & [[uid' u]|] & _ & Hu & ->)];
    cbn [r_db fst users set_users]; try by repeat split.
  apply scalar_one_lookup in Hu.
  destruct (decide (uid' = uid)) as [->|Hne];
    [| by rewrite lookup_insert_ne].
  rewrite lookup_insert_eq, Hu. by repeat split.
Qed.

(** C9.  The answer "Sciatic" of a candidate whose options are Axillary,
    Radial, Median and Ulnar is neither a letter nor the text of an option,
    and [_map_correct_option] maps it to "A", as it maps a missing answer.
    But the review-confirm commit path does not publish the candidate: the
    scorer accepts it with score 80, the call of the [Question] constructor
    raises, and [admin_review_confirm] leaves the database as it was,
    telling the reviewer first that something went wrong and then
    "Uploaded".  No confirmation of any candidate adds a row to the
    questions table. *)
Theorem unresolvable_answer_is_not_published :
  let q := mcq "Which nerve supplies the deltoid muscle?"
             (Some "Sciatic"%string) in
  let blank := mcq "Which nerve supplies the deltoid muscle?" None in
  unresolvable (c_correct_answer q) (default [] (c_options q))
  /\ _map_correct_option (c_correct_answer q) (default [] (c_options q))
     = "A"%string
  /\ _map_correct_option (c_correct_answer blank)
       (default [] (c_options blank))
     = "A"%string
  /\ moderate_question_with_ai (accepts_with 80) NoKey
       (question_data q anatomy)
     = Some {| m_score := Some 80; m_comments := None;
               m_action := Some "accept"%string |}
  /\ _insert_question_with_moderation add_and_commit (accepts_with 80) NoKey
       (Some anatomy) q (Some "alice"%string) Examples.one_question
     = None
  /\ admin_review_confirm add_and_commit true (accepts_with 80) NoKey
       (Some anatomy) [q; blank] 0 (Some "alice"%string)
       Examples.one_question
     = {| r_db := Examples.one_question; r_index := 1;
          r_replies := [something_went_wrong; uploaded] |}
  /\ admin_review_confirm add_and_commit true (accepts_with 80) NoKey
       (Some anatomy) [q; blank] 1 (Some "alice"%string)
       Examples.one_question
     = {| r_db := Examples.one_question; r_index := 2;
          r_replies := [something_went_wrong; uploaded] |}
  /\ forall is_admin openai gemini topic candidates idx tg db,
       questions
         (r_db (admin_review_confirm add_and_commit is_admin openai gemini
                  topic candidates idx tg db))
       = questions db.
Proof.
  cbn zeta.
  split.
  { right. right. eexists. split; [reflexivity |]. split.
    - unfold is_letter.
      refine (proj1 (bool_decide_eq_false _) _). by vm_compute.
    - intros (o & Ho & Heq).
      unfold mcq in Ho. cbn [c_options default from_option id] in Ho.
      rewrite !elem_of_cons, elem_of_nil in Ho.
      destruct Ho as [[= ->]|[[= ->]|[[= ->]|[[= ->]|[]]]]];
        vm_compute in Heq; discriminate. }
  split; [by vm_compute |]. split; [by vm_compute |].
  split; [reflexivity |].
  split; [by vm_compute |]. split; [by vm_compute |].
  split; [by vm_compute |].
  intros. apply confirm_stores_no_question.
Qed.

End Commit.

(** ** Contributor counters *)

Section ContributorCounters.

Import Moderation Admin Counters AnalyticsService.

Lemma singleton_of_nodup {A} (l : list A) (a : A) :
  NoDup l -> a ∈ l -> (forall x, x ∈ l -> x = a) -> l = [a].
Proof.
  intros Hnd Ha Hall. destruct l as [|x [|y r]].
  - by apply elem_of_nil in Ha.
  - f_equal. apply Hall, list_elem_of_here.
  - exfalso.
    assert (x = a) by apply Hall, list_elem_of_here.
    assert (y = a) by apply Hall, list_elem_of_further, list_elem_of_here.
    subst. apply NoDup_cons in Hnd as [Hnotin _].
    apply Hnotin, list_elem_of_here.
Qed.

Lemma users_named_sole name uid us u :
  sole_user name uid us -> us !! uid = Some u ->
  users_named name us = [(uid, u)].
Proof.
  intros [(u0 & Hu0 & Hname) Huniq] Hu.
  assert (u0 = u) as -> by congruence.
  unfold users_named. apply singleton_of_nodup.
  - apply NoDup_filter, NoDup_map_to_list.
  - apply list_elem_of_filter. split; [exact Hname |].
    by apply elem_of_map_to_list.
  - intros [k v] [Hn Hkv%elem_of_map_to_list]%list_elem_of_filter.
    cbn in Hn. assert (k = uid) as -> by (by apply (Huniq k v)). congruence.
Qed.

Variable add_and_commit : instance -> DB -> option DB.

(** One rejected commit: no row is added to the questions table, and the
    uploader's rejected count goes up by one. *)
Lemma reject_commit topic q tg db uid u s :
  sole_user (Py.str_or tg None) uid (users db) -> users db !! uid = Some u ->
  _insert_question_with_moderation add_and_commit (rejects_with s) NoKey
    (Some topic) q tg db
  = Some (set_users db
            (<[uid := count_upload true false (Some s) u]> (users db)),
          "❌ Rejected by AI moderation."%string)
  /\ rejected_count (count_upload true false (Some s) u)
     = Some (Py.int_or0 (rejected_count u) + 1).
Proof.
  intros Hsole Hu. split; [| reflexivity].
  unfold _insert_question_with_moderation. cbn [mbind option_bind rejects_with
    moderate_question_with_ai].
  rewrite (users_named_sole _ _ _ _ Hsole Hu). reflexivity.
Qed.

(** *** Rounding *)

Lemma round_div_between a b lo hi :
  0 < b -> lo * b <= a <= hi * b -> lo <= round_div a b <= hi.
Proof.
  intros Hb [Hlo Hhi]. unfold round_div.
  pose proof (Z.div_mod a b ltac:(lia)) as Hdm.
  pose proof (Z.mod_pos_bound a b Hb) as Hr.
  set (q := a / b) in *. set (r := a mod b) in *.
  assert (Hq1 : lo <= q) by nia.
  assert (Hq2 : q <= hi) by nia.
  assert (Hq3 : q = hi -> r = 0) by nia.
  destruct (2 * r <? b) eqn:Hlt; [lia |].
  apply Z.ltb_ge in Hlt.
  assert (Hq4 : q + 1 <= hi) by (destruct (decide (q = hi)); lia).
  destruct (b <? 2 * r); [lia |]. destruct (Z.even q); lia.
Qed.

(** C4.  The reviewer confirms three candidates of uploader alice, whose
    approved count is 0, and the scorer accepts them with scores 70, 71 and
    71.  After the three confirmations the database is what it was: the
    approved count is still 0, not 3, no average is stored and no question
    was added, while the reviewer was told "Uploaded" three times.  Lines
    609 to 621 do count the upload in the session, but the call of the
    [Question] constructor that follows raises, so the session ends without
    a commit.  No confirmation, whatever the candidate and the verdict,
    changes an approved count or a stored average; a rejection, which
    commits before the constructor is called, is counted. *)
Theorem approve_commits_are_not_counted :
  counter approved_count 7 Examples.one_question = Some 0
  /\ Forall (fun item : Candidate * Z =>
               moderate_question_with_ai (accepts_with item.2) NoKey
                 (question_data item.1 anatomy)
               = Some {| m_score := Some item.2; m_comments := None;
                         m_action := Some "accept"%string |})
       three_items
  /\ confirm_all add_and_commit anatomy (Some "alice"%string)
       three_items.*1 three_items.*2 0 Examples.one_question
     = {| r_db := Examples.one_question; r_index := 3;
          r_replies := [something_went_wrong; uploaded;
                        something_went_wrong; uploaded;
                        something_went_wrong; uploaded] |}
  /\ (forall is_admin openai gemini topic candidates idx tg db uid,
        let r := admin_review_confirm add_and_commit is_admin openai gemini
                   topic candidates idx tg db in
        approved_count <$> users (r_db r) !! uid
        = approved_count <$> users db !! uid
        /\ average_moderation_score <$> users (r_db r) !! uid
           = average_moderation_score <$> users db !! uid)
  /\ counter rejected_count 7
       (r_db (admin_review_confirm add_and_commit true (rejects_with 20)
                NoKey (Some anatomy) three_items.*1 0 (Some "alice"%string)
                Examples.one_question))
     = Some 1.
Proof.
  split; [reflexivity |].
  split; [repeat constructor |].
  split; [by vm_compute |].
  split; [| by vm_compute].
  intros is_admin openai gemini topic candidates idx tg db uid.
  destruct (confirm_counts_no_approval add_and_commit is_admin openai gemini
              topic candidates idx tg db uid) as (Happroved & _ & Haverage).
  by split.
Qed.

(** The formula of lines 618 to 620 by itself, applied in the session to
    the scores 70, 71 and 71, gives 70, while the mean 212/3 rounds to 71:
    the second update rounds 70.5 to 70, and the third, started from 70,
    gives round(211/3) = 70. *)
Lemma incremental_formula_is_not_rounded_mean :
  let u := count_upload false false (Some 71)
             (count_upload false false (Some 71)
                (count_upload false false (Some 70)
                   (Examples.no_counts "alice"))) in
  approved_count u = Some 3
  /\ average_moderation_score u = Some 70
  /\ rounded_mean [70; 71; 71] = 71.
Proof. vm_compute. repeat split. Qed.

End ContributorCounters.

(** ** Automatic moderation after upload *)

Section AutomaticModeration.

Import Moderation ModerationHandlers Counters.

(** C5.  Question 50 of uploader 7 is moderated automatically.  When the
    scorer accepts with score 82 the question stays active, is not held for
    review and carries score 82, but the uploader's approved count stays 0;
    when the scorer rejects, the question is made inactive, but the
    uploader's rejected count stays 0.  The handler passes the scorer's
    words "accept" and "reject" to [update_contributor_stats], which counts
    only "approved", "flagged" and "rejected". *)
Theorem automatic_moderation_counts_nothing :
  let accept := {| m_score := Some 82; m_comments := None;
                   m_action := Some "accept"%string |} in
  let reject := {| m_score := Some 20; m_comments := None;
                   m_action := Some "reject"%string |} in
  let db_a := moderate_question_after_upload accept 50 Examples.one_question in
  let db_r := moderate_question_after_upload reject 50 Examples.one_question in
  counter approved_count 7 Examples.one_question = Some 0
  /\ counter rejected_count 7 Examples.one_question = Some 0
  /\ question_field is_active 50 db_a = Some true
  /\ question_field needs_review 50 db_a = Some false
  /\ question_field moderation_score 50 db_a = Some (Some 82)
  /\ counter approved_count 7 db_a = Some 0
  /\ question_field is_active 50 db_r = Some false
  /\ counter rejected_count 7 db_r = Some 0.
Proof. vm_compute. repeat split. Qed.

(** The labels the other callers pass do count. *)
Lemma update_contributor_stats_approved :
  counter approved_count 7
    (AnalyticsService.update_contributor_stats 7 50 "approved"
       Examples.one_question) = Some 1
  /\ counter rejected_count 7
       (AnalyticsService.update_contributor_stats 7 50 "rejected"
          Examples.one_question) = Some 1.
Proof. vm_compute. repeat split. Qed.

End AutomaticModeration.

(** * Further properties of the batch store *)

Section BatchStoreMore.

Import MultiAdminService BatchStore Listing Effects.

Lemma lock_succeeds now batch_id admin_id db batch :
  batches db !! batch_id = Some batch ->
  lock_conflict now admin_id batch = false ->
  lock_batch_for_review now batch_id admin_id db
  = (set_batches db (<[batch_id := locked_as now admin_id batch]> (batches db)),
     {| success := true; message := "Batch locked for review" |}).
Proof.
  intros Hb Hc. unfold lock_batch_for_review. by rewrite Hb, Hc.
Qed.

Lemma lock_success_inv now batch_id admin_id db :
  (lock_batch_for_review now batch_id admin_id db).2.(success) = true ->
  exists batch,
    batches db !! batch_id = Some batch
    /\ lock_conflict now admin_id batch = false.
Proof.
  unfold lock_batch_for_review.
  destruct (batches db !! batch_id) as [batch|]; [| discriminate].
  destruct (lock_conflict now admin_id batch) eqn:Hc; [discriminate | eauto].
Qed.

Lemma no_conflict_when_expired now admin_id batch t :
  locked_at batch = Some t -> lock_timeout <= now - t ->
  lock_conflict now admin_id batch = false.
Proof.
  intros Ht Hage. unfold lock_conflict. rewrite Ht.
  unfold total_seconds_lt, lock_timeout in *.
  apply andb_false_intro2. apply Z.ltb_ge. lia.
Qed.

Lemma no_conflict_when_free_or_own now admin_id batch :
  locked_by batch = None \/ locked_by batch = Some admin_id ->
  lock_conflict now admin_id batch = false.
Proof.
  intros [H|H]; unfold lock_conflict; rewrite H; [reflexivity |].
  rewrite bool_decide_eq_true_2 by reflexivity.
  by rewrite andb_false_r.
Qed.

(** X1.  A lock that is at least 15 minutes old does not protect the
    batch: any admin who asks for the batch gets it, becomes the holder with
    the current time and puts the batch in review; no other batch, user or
    question is changed. *)
Theorem expired_lock_can_be_taken (now batch_id Y t : Z) (db : DB)
    (batch : UploadBatch) :
  batches db !! batch_id = Some batch ->
  locked_at batch = Some t -> lock_timeout <= now - t ->
  lock_batch_for_review now batch_id Y db
  = (set_batches db (<[batch_id := locked_as now Y batch]> (batches db)),
     {| success := true; message := "Batch locked for review" |}).
Proof.
  intros Hb Ht Hage. apply lock_succeeds; [exact Hb |].
  by apply no_conflict_when_expired with t.
Qed.

Lemma expired_lock_can_be_taken_witness :
  lock_batch_for_review 960000000 3 6 store
  = (set_batches store
       (<[3 := locked_as 960000000 6 (held review (Some 5) (Some 0))]>
          (batches store)),
     {| success := true; message := "Batch locked for review" |}).
Proof.
  apply (expired_lock_can_be_taken 960000000 3 6 0 store).
  - reflexivity.
  - reflexivity.
  - vm_compute. discriminate.
Defined.

(** X2.  A batch that has no lock-holder, or whose holder is the caller,
    is locked for the caller whatever its status and however old the lock:
    the holder re-locking refreshes the time stamp, and an approved or
    rejected batch that is locked goes back to review. *)
Theorem free_or_own_batch_can_be_locked (now batch_id Y : Z) (db : DB)
    (batch : UploadBatch) :
  batches db !! batch_id = Some batch ->
  locked_by batch = None \/ locked_by batch = Some Y ->
  lock_batch_for_review now batch_id Y db
  = (set_batches db (<[batch_id := locked_as now Y batch]> (batches db)),
     {| success := true; message := "Batch locked for review" |}).
Proof.
  intros Hb Hfree. apply lock_succeeds; [exact Hb |].
  by apply no_conflict_when_free_or_own.
Qed.

Lemma free_or_own_batch_can_be_locked_witness :
  lock_batch_for_review 1000 1 6 store
  = (set_batches store
       (<[1 := locked_as 1000 6 (held approved None None)]> (batches store)),
     {| success := true; message := "Batch locked for review" |}).
Proof.
  apply (free_or_own_batch_can_be_locked 1000 1 6 store).
  - reflexivity.
  - left. reflexivity.
Defined.

(** X3.  Once an admin [Y] has obtained the lock of a batch, every other
    admin is shut out of it: [approve_batch] and [reject_batch] by another
    admin fail and change nothing, and [unlock_batch] by another admin
    changes nothing either.  In particular a holder whose stale lock was
    taken over cannot approve the batch any more. *)
Theorem lock_shuts_out_other_admins (now later batch_id X Y : Z) (db : DB) :
  (lock_batch_for_review now batch_id Y db).2.(success) = true ->
  X <> Y ->
  let db' := (lock_batch_for_review now batch_id Y db).1 in
  approve_batch later batch_id X db'
  = (db', {| success := false;
             message := "You don't have permission to approve this batch" |})
  /\ reject_batch later batch_id X db'
     = (db', {| success := false;
                message := "You don't have permission to reject this batch" |})
  /\ unlock_batch batch_id X db' = (db', true).
Proof.
  intros Hok Hne.
  destruct (lock_success_inv _ _ _ _ Hok) as (batch & Hb & Hc).
  rewrite (lock_succeeds _ _ _ _ _ Hb Hc). cbn [fst].
  assert (Hl : batches
                 (set_batches db
                    (<[batch_id := locked_as now Y batch]> (batches db)))
               !! batch_id = Some (locked_as now Y batch))
    by apply lookup_insert_eq.
  unfold approve_batch, reject_batch, unlock_batch. rewrite Hl.
  rewrite !bool_decide_eq_false_2 by (cbn; congruence). done.
Qed.

Lemma lock_shuts_out_other_admins_witness :
  let db' := (lock_batch_for_review 960000000 3 6 store).1 in
  approve_batch 970000000 3 5 db'
  = (db', {| success := false;
             message := "You don't have permission to approve this batch" |})
  /\ reject_batch 970000000 3 5 db'
     = (db', {| success := false;
                message := "You don't have permission to reject this batch" |})
  /\ unlock_batch 3 5 db' = (db', true).
Proof.
  apply (lock_shuts_out_other_admins 960000000 970000000 3 5 6 store).
  - reflexivity.
  - lia.
Defined.

(** X4.  Locking a batch and then unlocking it as the same admin leaves
    the batch unlocked and in draft, whatever its status was before the
    lock, and changes nothing else. *)
Theorem lock_then_unlock (now batch_id Y : Z) (db : DB) (batch : UploadBatch) :
  batches db !! batch_id = Some batch ->
  (lock_batch_for_review now batch_id Y db).2.(success) = true ->
  unlock_batch batch_id Y (lock_batch_for_review now batch_id Y db).1
  = (set_batches db (<[batch_id := release batch]> (batches db)), true).
Proof.
  intros Hb Hok.
  destruct (lock_success_inv _ _ _ _ Hok) as (batch' & Hb' & Hc).
  assert (batch' = batch) as -> by congruence.
  rewrite (lock_succeeds _ _ _ _ _ Hb Hc). cbn [fst].
  unfold unlock_batch. cbn [batches set_batches].
  rewrite lookup_insert_eq.
  rewrite bool_decide_eq_true_2 by reflexivity.
  unfold set_batches. cbn. by rewrite insert_insert_eq.
Qed.

Lemma lock_then_unlock_witness :
  unlock_batch 1 6 (lock_batch_for_review 1000 1 6 store).1
  = (set_batches store
       (<[1 := release (held approved None None)]> (batches store)), true).
Proof.
  apply (lock_then_unlock 1000 1 6 store).
  - reflexivity.
  - reflexivity.
Defined.

(** X5.  [create_upload_batch] returns a batch id that was not in use and
    is larger than every id in use; under it the table holds a draft batch
    without lock for the given uploader and count, and every batch that was
    in the table is still there unchanged. *)
Theorem create_upload_batch_adds_fresh_draft (now uploader count : Z)
    (db : DB) :
  exists id,
    (create_upload_batch now uploader count db).2 = Some id
    /\ batches db !! id = None
    /\ batches (create_upload_batch now uploader count db).1 !! id
       = Some (new_batch now uploader count)
    /\ forall k batch,
         batches db !! k = Some batch ->
         k < id
         /\ batches (create_upload_batch now uploader count db).1 !! k
            = Some batch.
Proof.
  exists (next_id (batches db)). cbn.
  split; [reflexivity |]. split; [apply next_id_fresh |].
  split; [apply lookup_insert_eq |].
  intros k batch Hk.
  assert (k < next_id (batches db)) by (apply next_id_above; eauto).
  split; [done |]. rewrite lookup_insert_ne by lia. exact Hk.
Qed.

(** X6.  The expiry sweep returns the number of batches it released, and
    a second sweep at the same instant changes nothing and returns 0. *)
Theorem sweep_counts_and_is_idempotent (now : Z) (db : DB) :
  (cleanup_expired_locks now db).2
  = Z.of_nat (size (filter (fun kb => expired now kb.2 = true) (batches db)))
  /\ cleanup_expired_locks now (cleanup_expired_locks now db).1
     = ((cleanup_expired_locks now db).1, 0).
Proof.
  split; [apply cleanup_count | apply cleanup_idempotent].
Qed.

(** X7.  The sweep releases a batch (clears both lock fields and sets the
    status to draft) when the batch is in review and its lock is more than
    15 minutes old; a batch that is not in review, has no lock time or
    whose lock is at most 15 minutes old is left exactly as it was. *)
Theorem sweep_releases_only_stale_reviews (now k : Z) (db : DB)
    (batch : UploadBatch) :
  batches db !! k = Some batch ->
  (status batch = review ->
   forall t, locked_at batch = Some t -> lock_timeout < now - t ->
   batches (cleanup_expired_locks now db).1 !! k = Some (release batch))
  /\ (status batch <> review \/ locked_at batch = None
      \/ (exists t, locked_at batch = Some t /\ now - t <= lock_timeout) ->
      batches (cleanup_expired_locks now db).1 !! k = Some batch).
Proof.
  intros Hk. rewrite cleanup_lookup, Hk. cbn [fmap option_fmap option_map].
  split.
  - intros Hst t Ht Hage.
    assert (expired now batch = true) as -> by (apply expired_iff; eauto).
    reflexivity.
  - intros Hlive.
    destruct (expired now batch) eqn:He; [| reflexivity].
    apply expired_iff in He as (Hst & t & Ht & Hage).
    destruct Hlive as [? | [? | (t' & Ht' & ?)]]; [done | congruence |].
    assert (t' = t) by congruence. lia.
Qed.

Lemma sweep_releases_only_stale_reviews_witness :
  (status (held review (Some 5) (Some 0)) = review ->
   forall t, locked_at (held review (Some 5) (Some 0)) = Some t ->
   lock_timeout < 960000000 - t ->
   batches (cleanup_expired_locks 960000000 store).1 !! 3
   = Some (release (held review (Some 5) (Some 0))))
  /\ (status (held review (Some 5) (Some 0)) <> review
      \/ locked_at (held review (Some 5) (Some 0)) = None
      \/ (exists t, locked_at (held review (Some 5) (Some 0)) = Some t
                    /\ 960000000 - t <= lock_timeout) ->
      batches (cleanup_expired_locks 960000000 store).1 !! 3
      = Some (held review (Some 5) (Some 0))).
Proof.
  apply (sweep_releases_only_stale_reviews 960000000 3 store).
  reflexivity.
Defined.

(** X8.  Every batch that [get_available_batches_for_admin] lists for an
    admin is in draft or review, and the same admin's
    [lock_batch_for_review] on it at the same instant succeeds. *)
Theorem listed_batch_can_be_locked (now admin_id : Z) (db : DB)
    (s : BatchSummary) :
  s ∈ get_available_batches_for_admin now admin_id db ->
  exists batch,
    batches db !! s_batch_id s = Some batch
    /\ s_status s = status batch
    /\ (status batch = draft \/ status batch = review)
    /\ lock_batch_for_review now (s_batch_id s) admin_id db
       = (set_batches db
            (<[s_batch_id s := locked_as now admin_id batch]> (batches db)),
          {| success := true; message := "Batch locked for review" |}).
Proof.
  unfold get_available_batches_for_admin.
  intros ([k batch] & -> & Hin)%list_elem_of_fmap.
  apply list_elem_of_filter in Hin as [Hav Hk%elem_of_map_to_list].
  cbn in Hav |- *. exists batch. split; [exact Hk |]. split; [reflexivity |].
  unfold available in Hav. apply andb_true_iff in Hav as [Hlock Hst].
  split.
  - apply orb_true_iff in Hst as [H|H]; apply bool_decide_eq_true in H; auto.
  - apply lock_succeeds; [exact Hk |].
    apply orb_true_iff in Hlock as [Hlock|Hold].
    + apply no_conflict_when_free_or_own.
      apply orb_true_iff in Hlock as [H|H]; apply bool_decide_eq_true in H;
        auto.
    + destruct (locked_at batch) as [t|] eqn:Ht; [| discriminate].
      apply no_conflict_when_expired with t; [exact Ht |].
      apply Z.ltb_lt in Hold.
      unfold lock_timeout, timedelta_minutes in *. lia.
Qed.

Lemma listed_batch_can_be_locked_witness :
  exists batch,
    batches store !! 2 = Some batch
    /\ draft = status batch
    /\ (status batch = draft \/ status batch = review)
    /\ lock_batch_for_review 1000 2 6 store
       = (set_batches store
            (<[2 := locked_as 1000 6 batch]> (batches store)),
          {| success := true; message := "Batch locked for review" |}).
Proof.
  apply (listed_batch_can_be_locked 1000 6 store
           {| s_batch_id := 2; s_uploader := Some "alice"%string;
              s_questions_count := 1; s_status := draft;
              s_locked_by := None; s_locked_at := None;
              s_created_at := 0 |}).
  vm_compute. apply list_elem_of_here.
Defined.


Lemma decision_completes_batch now batch_id admin_id db batch (active : bool) :
  batches db !! batch_id = Some batch -> locked_by batch = Some admin_id ->
  batches (if active then approve_batch now batch_id admin_id db
           else reject_batch now batch_id admin_id db).1 !! batch_id
  = Some (complete now (if active then approved else rejected) batch).
Proof.
  intros Hb Hl.
  destruct active; unfold approve_batch, reject_batch;
    rewrite Hb, (bool_decide_eq_true_2 _ Hl); cbn; apply lookup_insert_eq.
Qed.



(** X10.  A decision on a batch gives up the lock: after a successful
    [approve_batch] or [reject_batch] nobody, the former holder included,
    can approve or reject the batch again, while any admin can lock it
    again, which puts the decided batch back in review. *)
Theorem decided_batch_is_released (now later batch_id admin_id A : Z)
    (db : DB) (active : bool) :
  let r := if active then approve_batch now batch_id admin_id db
           else reject_batch now batch_id admin_id db in
  r.2.(success) = true ->
  (approve_batch later batch_id A r.1).2.(success) = false
  /\ (reject_batch later batch_id A r.1).2.(success) = false
  /\ (lock_batch_for_review later batch_id A r.1).2.(success) = true
  /\ exists batch,
       batches (lock_batch_for_review later batch_id A r.1).1 !! batch_id
       = Some batch
       /\ status batch = review /\ locked_by batch = Some A.
Proof.
  intros r Hok.
  assert (Hholder : exists batch,
            batches db !! batch_id = Some batch
            /\ locked_by batch = Some admin_id).
  { subst r. destruct active;
      [by apply approve_needs_lock with now | by apply reject_needs_lock with now]. }
  destruct Hholder as (batch & Hb & Hl).
  assert (Hdone := decision_completes_batch now batch_id admin_id db batch
                     active Hb Hl).
  fold r in Hdone.
  set (decided := complete now (if active then approved else rejected) batch)
    in *.
  assert (Hfree : lock_conflict later A decided = false)
    by (apply no_conflict_when_free_or_own; left; reflexivity).
  unfold approve_batch, reject_batch. rewrite Hdone.
  rewrite !bool_decide_eq_false_2 by (cbn; congruence).
  rewrite (lock_succeeds later batch_id A r.1 decided Hdone Hfree).
  repeat split. exists (locked_as later A decided).
  split; [apply lookup_insert_eq | by split].
Qed.

Lemma decided_batch_is_released_witness :
  let r := approve_batch 1000 3 5 store in
  (approve_batch 2000 3 5 r.1).2.(success) = false
  /\ (reject_batch 2000 3 5 r.1).2.(success) = false
  /\ (lock_batch_for_review 2000 3 5 r.1).2.(success) = true
  /\ exists batch,
       batches (lock_batch_for_review 2000 3 5 r.1).1 !! 3 = Some batch
       /\ status batch = review /\ locked_by batch = Some 5.
Proof.
  apply (decided_batch_is_released 1000 2000 3 5 5 store true).
  reflexivity.
Defined.

End BatchStoreMore.

(** * The answer letter ([_map_correct_option]) *)

Section AnswerLetter.

Import Admin AnswerRule.

Lemma letters_single l : l ∈ letters -> first_char l = l.
Proof.
  unfold letters. rewrite !elem_of_cons, elem_of_nil.
  intros [->|[->|[->|[->|[->|[]]]]]]; reflexivity.
Qed.


(** X12.  An answer that is one of the letters A to E, in either case and
    with white space around it, is returned as that upper-case letter, also
    when it is the text of some option. *)
Theorem map_correct_option_letter (s : string) (options : list (option string)) :
  is_letter s ->
  _map_correct_option (Some s) options = Py.upper (Py.strip s).
Proof.
  intros Hl. unfold _map_correct_option.
  assert (Hs : Py.str_truthy (Some s) = true).
  { cbn. apply negb_true_iff, bool_decide_eq_false. intros ->.
    unfold is_letter in Hl. vm_compute in Hl.
    repeat (apply elem_of_cons in Hl as [Hl|Hl]; [discriminate |]).
    by apply elem_of_nil in Hl. }
  rewrite Hs. cbn [negb default from_option id].
  rewrite bool_decide_eq_true_2 by exact Hl. by apply letters_single.
Qed.

Lemma map_correct_option_letter_witness :
  _map_correct_option (Some " c ")
    [Some "a"; Some "b"; Some " C "; Some "d"]%string
  = Py.upper (Py.strip " c ").
Proof.
  apply (map_correct_option_letter " c ").
  vm_compute. do 2 apply list_elem_of_further. apply list_elem_of_here.
Defined.

Lemma index_first x l i :
  l !! i = Some x -> (forall j y, (j < i)%nat -> l !! j = Some y -> y <> x) ->
  index x l = Some i.
Proof.
  revert i. induction l as [|y r IH]; intros i Hi Hbefore; [done |]. cbn.
  destruct i as [|i].
  - injection Hi as ->. by rewrite bool_decide_eq_true_2.
  - rewrite bool_decide_eq_false_2
      by (apply (Hbefore 0%nat y); [lia | reflexivity]).
    rewrite (IH i); [reflexivity | exact Hi |].
    intros j z Hj Hz. apply (Hbefore (S j) z); [lia | exact Hz].
Qed.

Lemma normalised_options_all options :
  Forall (fun o => o <> None) options ->
  normalised_options options
  = Some ((fun o => Py.lower (Py.strip (default ""%string o))) <$> options).
Proof.
  unfold normalised_options. intros Hall. apply mapM_Some_2.
  induction Hall as [|[o|] r Ho Hr IH]; cbn; constructor; try done.
Qed.

(** X13.  An answer that is not empty and not a letter, given with options
    that are all strings, resolves to the letter of the first option whose
    text equals the answer when case and surrounding white space are
    ignored, provided that option is among the first five. *)
Theorem map_correct_option_text (s o l : string)
    (options : list (option string)) (i : nat) :
  s <> EmptyString -> ~ is_letter s ->
  Forall (fun o => o <> None) options ->
  options !! i = Some (Some o) ->
  Py.lower (Py.strip o) = Py.lower (Py.strip s) ->
  (forall j o', (j < i)%nat -> options !! j = Some (Some o') ->
                Py.lower (Py.strip o') <> Py.lower (Py.strip s)) ->
  letters !! i = Some l ->
  _map_correct_option (Some s) options = l.
Proof.
  intros Hs Hl Hall Hi Heq Hfirst Hletter. unfold _map_correct_option.
  assert (Py.str_truthy (Some s) = true) as ->
    by (cbn; by rewrite bool_decide_eq_false_2).
  cbn [negb default from_option id].
  rewrite bool_decide_eq_false_2 by exact Hl.
  rewrite (normalised_options_all _ Hall).
  rewrite (index_first _ _ i).
  - by rewrite Hletter.
  - rewrite list_lookup_fmap, Hi. cbn [fmap option_fmap option_map default
      from_option id]. by rewrite <- Heq.
  - intros j y Hj Hy. rewrite list_lookup_fmap in Hy.
    destruct (options !! j) as [[o'|]|] eqn:Hoj; cbn in Hy; try discriminate.
    + injection Hy as <-. by apply (Hfirst j o').
    + exfalso. by apply (Forall_lookup_1 _ _ _ _ Hall Hoj).
Qed.

Lemma map_correct_option_text_witness :
  _map_correct_option (Some " RADIAL nerve")
    [Some "Axillary nerve"; Some "Radial nerve "; Some "radial nerve";
     Some "Ulnar nerve"]%string
  = "B"%string.
Proof.
  apply (map_correct_option_text " RADIAL nerve" "Radial nerve " "B"
           [Some "Axillary nerve"; Some "Radial nerve "; Some "radial nerve";
            Some "Ulnar nerve"]%string 1).
  - discriminate.
  - vm_compute. intros H.
    repeat (apply elem_of_cons in H as [H|H]; [discriminate |]).
    by apply elem_of_nil in H.
  - repeat constructor; discriminate.
  - reflexivity.
  - reflexivity.
  - intros [|j] o' Hj Ho'; [| lia]. cbn in Ho'. injection Ho' as <-.
    vm_compute. discriminate.
  - reflexivity.
Defined.

End AnswerLetter.

(** * Retrying with backoff *)

Section Retry.

Import AsyncJobs.

Context {A E : Type}.
Variable clock_limit : Q.

Lemma retry_from_step (fn : nat -> call_result A E) attempts base_delay i
    remaining last_exc :
  retry_from clock_limit fn attempts base_delay i (S remaining) last_exc
  = match fn i with
    | Returns a => {| ending := Returned a; calls := 1; sleeps := [] |}
    | Raises e =>
        let rest :=
          retry_from clock_limit fn attempts base_delay (S i) remaining
            (Some e) in
        if Z.of_nat i <? attempts - 1 then
          if sleep_raises clock_limit base_delay i then
            {| ending := SleepRaised; calls := 1; sleeps := [] |}
          else
            {| ending := ending rest; calls := S (calls rest);
               sleeps := delay base_delay i :: sleeps rest |}
        else
          {| ending := ending rest; calls := S (calls rest);
             sleeps := sleeps rest |}
    end.
Proof. reflexivity. Qed.

Lemma delay_nonneg base_delay i :
  (0 <= base_delay)%Q -> (0 <= delay base_delay i)%Q.
Proof.
  intros Hb. unfold delay. apply Qmult_le_0_compat; [exact Hb |].
  change 0%Q with (inject_Z 0). rewrite <- Zle_Qle. lia.
Qed.

(** A delay that is not negative, is computed with an exponent below 1024
    and lies within the range of the clock is slept. *)
Lemma sleep_accepted base_delay i :
  (0 <= base_delay)%Q -> (i < 1024)%nat ->
  (delay base_delay i <= clock_limit)%Q ->
  sleep_raises clock_limit base_delay i = false.
Proof.
  intros Hb Hi Hd. unfold sleep_raises.
  assert (Hpos := delay_nonneg base_delay i Hb).
  assert ((1024 <=? i)%nat = false) as -> by (apply Nat.leb_gt; lia).
  destruct (Qlt_le_dec (delay base_delay i) 0); [lra |].
  destruct (Qlt_le_dec clock_limit (delay base_delay i)); [lra |].
  reflexivity.
Qed.

Lemma retry_from_success (fn : nat -> call_result A E) attempts base_delay
    k a remaining : forall i last_exc,
  (forall j, (i <= j < k)%nat -> exists e, fn j = Raises e) ->
  (forall j, (i <= j < k)%nat ->
             sleep_raises clock_limit base_delay j = false) ->
  fn k = Returns a -> (i <= k)%nat -> (k < i + remaining)%nat ->
  Z.of_nat k < attempts ->
  retry_from clock_limit fn attempts base_delay i remaining last_exc
  = {| ending := Returned a; calls := S (k - i);
       sleeps := delay base_delay <$> seq i (k - i) |}.
Proof.
  induction remaining as [|remaining IH];
    intros i last_exc Hfail Hsleep Hk Hik Hrem Hatt; [lia |].
  rewrite retry_from_step. destruct (decide (i = k)) as [->|Hne].
  - rewrite Hk, Nat.sub_diag. reflexivity.
  - destruct (Hfail i ltac:(lia)) as [e ->].
    assert (Hrest := IH (S i) (Some e)).
    cbn zeta.
    rewrite Hrest;
      [| intros j Hj; apply Hfail; lia | intros j Hj; apply Hsleep; lia
       | exact Hk | lia..].
    cbn [ending calls sleeps].
    assert ((Z.of_nat i <? attempts - 1) = true) as -> by lia.
    rewrite (Hsleep i) by lia.
    replace (k - i)%nat with (S (k - S i)) by lia. reflexivity.
Qed.

Lemma retry_from_failure (fn : nat -> call_result A E) (e : nat -> E)
    attempts base_delay remaining : forall i last_exc,
  (forall j, (i <= j < i + S remaining)%nat -> fn j = Raises (e j)) ->
  (forall j, (i <= j < i + remaining)%nat ->
             sleep_raises clock_limit base_delay j = false) ->
  Z.of_nat (i + S remaining) = attempts ->
  retry_from clock_limit fn attempts base_delay i (S remaining) last_exc
  = {| ending := Reraised (e (i + remaining)%nat);
       calls := S remaining;
       sleeps := delay base_delay <$> seq i remaining |}.
Proof.
  induction remaining as [|remaining IH]; intros i last_exc Hfail Hsleep Hatt.
  - rewrite retry_from_step, Hfail by lia.
    assert ((Z.of_nat i <? attempts - 1) = false) as -> by lia.
    cbn. by rewrite Nat.add_0_r.
  - rewrite retry_from_step, (Hfail i) by lia. cbn zeta.
    rewrite (IH (S i) (Some (e i)));
      [| intros j Hj; apply Hfail; lia | intros j Hj; apply Hsleep; lia
       | lia].
    cbn [ending calls sleeps].
    assert ((Z.of_nat i <? attempts - 1) = true) as -> by lia.
    rewrite (Hsleep i) by lia.
    replace (S i + remaining)%nat with (i + S remaining)%nat by lia.
    reflexivity.
Qed.

Lemma retry_from_sleep_raises (fn : nat -> call_result A E) (e : nat -> E)
    attempts base_delay k remaining : forall i last_exc,
  (forall j, (i <= j <= k)%nat -> fn j = Raises (e j)) ->
  (forall j, (i <= j < k)%nat ->
             sleep_raises clock_limit base_delay j = false) ->
  sleep_raises clock_limit base_delay k = true ->
  (i <= k)%nat -> (k < i + remaining)%nat -> Z.of_nat k < attempts - 1 ->
  retry_from clock_limit fn attempts base_delay i remaining last_exc
  = {| ending := SleepRaised; calls := S (k - i);
       sleeps := delay base_delay <$> seq i (k - i) |}.
Proof.
  induction remaining as [|remaining IH];
    intros i last_exc Hfail Hsleep Hraise Hik Hrem Hatt; [lia |].
  rewrite retry_from_step, (Hfail i) by lia. cbn zeta.
  assert ((Z.of_nat i <? attempts - 1) = true) as -> by lia.
  destruct (decide (i = k)) as [->|Hne].
  - rewrite Hraise, Nat.sub_diag. reflexivity.
  - rewrite (Hsleep i) by lia.
    rewrite (IH (S i) (Some (e i)));
      [| intros j Hj; apply Hfail; lia | intros j Hj; apply Hsleep; lia
       | exact Hraise | lia..].
    cbn [ending calls sleeps].
    replace (k - i)%nat with (S (k - S i)) by lia. reflexivity.
Qed.

Lemma total_app l1 l2 : (total (l1 ++ l2) == total l1 + total l2)%Q.
Proof.
  unfold total. induction l1 as [|x l1 IH]; cbn [app foldr]; [ring |].
  rewrite IH. ring.
Qed.

(** The sleeps add up to [base_delay * (2^k - 1)]. *)
Lemma total_delays base_delay k :
  (total (delays base_delay k)
   == base_delay * (inject_Z (2 ^ Z.of_nat k) - 1))%Q.
Proof.
  unfold delays. induction k as [|k IH].
  - change (inject_Z (2 ^ Z.of_nat 0)) with 1%Q.
    cbn [seq fmap list_fmap total foldr]. ring.
  - rewrite seq_S, fmap_app, total_app, IH.
    cbn [fmap list_fmap total foldr Nat.add].
    unfold delay. rewrite Nat2Z.inj_succ, Z.pow_succ_r by lia.
    rewrite inject_Z_mult. ring.
Qed.

(** X14.  Let [base_delay] be no less than 0 and let every delay
    [base_delay * 2^i] with [i < k] be one the clock takes, with [k] at
    most 1024.  When the call fails [k] times and then succeeds, with [k]
    less than [attempts], [retry_with_backoff] returns the value of the
    first successful call after exactly [k + 1] calls, having slept
    [base_delay * 2^i] after the [i]-th failure, [base_delay * (2^k - 1)]
    in all. *)
Theorem retry_returns_first_success (fn : nat -> call_result A E)
    (attempts : Z) (base_delay : Q) (k : nat) (a : A) :
  (forall j, (j < k)%nat -> exists e, fn j = Raises e) ->
  fn k = Returns a -> Z.of_nat k < attempts ->
  (0 <= base_delay)%Q -> (k <= 1024)%nat ->
  (forall i, (i < k)%nat -> (delay base_delay i <= clock_limit)%Q) ->
  retry_with_backoff clock_limit fn attempts base_delay
  = {| ending := Returned a; calls := S k;
       sleeps := delays base_delay k |}
  /\ (total (sleeps (retry_with_backoff clock_limit fn attempts base_delay))
      == base_delay * (inject_Z (2 ^ Z.of_nat k) - 1))%Q.
Proof.
  intros Hfail Hk Hatt Hbase Hexp Hclock.
  assert (Heq : retry_with_backoff clock_limit fn attempts base_delay
                = {| ending := Returned a; calls := S k;
                     sleeps := delays base_delay k |}).
  { unfold retry_with_backoff.
    assert (Hrun := retry_from_success fn attempts base_delay k a
                      (Z.to_nat attempts) 0%nat None).
    rewrite Hrun;
      [| intros j Hj; apply Hfail; lia
       | intros j Hj; apply sleep_accepted; [exact Hbase | lia |];
         apply Hclock; lia
       | exact Hk | lia..].
    by rewrite Nat.sub_0_r. }
  split; [exact Heq |]. rewrite Heq. apply total_delays.
Qed.

(** X15.  Let [base_delay] be no less than 0, [attempts] at most 1025, and
    let every delay [base_delay * 2^i] with [i < attempts - 1] be one the
    clock takes.  When each of the first [attempts] calls fails, with
    [attempts] at least 1, [retry_with_backoff] calls exactly [attempts]
    times and raises the exception of the last call, not of the first; it
    sleeps after every failure but the last,
    [base_delay * (2^(attempts-1) - 1)] in all.  With [attempts] 0 or less
    it returns [None] without calling. *)
Theorem retry_gives_up_with_last_exception (fn : nat -> call_result A E)
    (e : nat -> E) (attempts : Z) (base_delay : Q) :
  (forall j, Z.of_nat j < attempts -> fn j = Raises (e j)) ->
  (0 <= base_delay)%Q -> attempts <= 1025 ->
  (forall i, Z.of_nat i < attempts - 1 ->
             (delay base_delay i <= clock_limit)%Q) ->
  (attempts <= 0 ->
   retry_with_backoff clock_limit fn attempts base_delay
   = {| ending := ReturnedNone; calls := 0; sleeps := [] |})
  /\ (1 <= attempts ->
      retry_with_backoff clock_limit fn attempts base_delay
      = {| ending := Reraised (e (Z.to_nat attempts - 1)%nat);
           calls := Z.to_nat attempts;
           sleeps := delays base_delay (Z.to_nat attempts - 1) |}
      /\ (total (sleeps (retry_with_backoff clock_limit fn attempts
                           base_delay))
          == base_delay * (inject_Z (2 ^ (attempts - 1)) - 1))%Q).
Proof.
  intros Hfail Hbase Hexp Hclock. split.
  - intros Hle. unfold retry_with_backoff.
    by replace (Z.to_nat attempts) with 0%nat by lia.
  - intros Hge.
    assert (Heq : retry_with_backoff clock_limit fn attempts base_delay
              = {| ending := Reraised (e (Z.to_nat attempts - 1)%nat);
                   calls := Z.to_nat attempts;
                   sleeps := delays base_delay (Z.to_nat attempts - 1) |}).
    { unfold retry_with_backoff.
      destruct (Z.to_nat attempts) as [|n] eqn:Hn; [lia |].
      rewrite (retry_from_failure fn e attempts base_delay n 0 None);
        [| intros j Hj; apply Hfail; lia
         | intros j Hj; apply sleep_accepted; [exact Hbase | lia |];
           apply Hclock; lia
         | lia].
      cbn [Nat.add]. by rewrite Nat.sub_succ, Nat.sub_0_r. }
    split; [exact Heq |]. rewrite Heq. cbn [sleeps].
    rewrite total_delays.
    replace (Z.of_nat (Z.to_nat attempts - 1)) with (attempts - 1) by lia.
    reflexivity.
Qed.

(** X26.  A sleep that raises ends the retries at once.  When the calls
    up to the [k]-th fail, a further attempt is due, the sleeps after the
    earlier failures returned, and the statement
    [time.sleep(base_delay * (2 ** k))] raises (a negative [base_delay], a
    delay beyond the range of the clock, or an exponent of 1024 or more),
    then [retry_with_backoff] ends with that exception after [k + 1]
    calls: no further call is made and the exception of [fn] is lost. *)
Theorem retry_ends_when_sleep_raises (fn : nat -> call_result A E)
    (e : nat -> E) (attempts : Z) (base_delay : Q) (k : nat) :
  (forall j, (j <= k)%nat -> fn j = Raises (e j)) ->
  Z.of_nat k < attempts - 1 ->
  (forall i, (i < k)%nat -> sleep_raises clock_limit base_delay i = false) ->
  sleep_raises clock_limit base_delay k = true ->
  retry_with_backoff clock_limit fn attempts base_delay
  = {| ending := SleepRaised; calls := S k;
       sleeps := delays base_delay k |}.
Proof.
  intros Hfail Hatt Hsleep Hraise. unfold retry_with_backoff.
  rewrite (retry_from_sleep_raises fn e attempts base_delay k
             (Z.to_nat attempts) 0 None);
    [| intros j Hj; apply Hfail; lia | intros j Hj; apply Hsleep; lia
     | exact Hraise | lia..].
  by rewrite Nat.sub_0_r.
Qed.

End Retry.

Lemma retry_returns_first_success_witness :
  AsyncJobs.retry_with_backoff AsyncJobs.a_clock_limit
    AsyncJobs.third_time_lucky 3 1
  = {| AsyncJobs.ending := AsyncJobs.Returned 42; AsyncJobs.calls := 3;
       AsyncJobs.sleeps := AsyncJobs.delays 1 2 |}
  /\ (AsyncJobs.total
        (AsyncJobs.sleeps
           (AsyncJobs.retry_with_backoff AsyncJobs.a_clock_limit
              AsyncJobs.third_time_lucky 3 1))
      == 1 * (inject_Z (2 ^ Z.of_nat 2) - 1))%Q.
Proof.
  apply (retry_returns_first_success AsyncJobs.a_clock_limit
           AsyncJobs.third_time_lucky 3 1 2 42).
  - intros [|[|j]] Hj; [eexists; reflexivity .. | lia].
  - reflexivity.
  - lia.
  - discriminate.
  - lia.
  - intros [|[|i]] Hi; [discriminate .. | lia].
Defined.

Lemma retry_gives_up_with_last_exception_witness :
  (3 <= 0 ->
   AsyncJobs.retry_with_backoff AsyncJobs.a_clock_limit
     AsyncJobs.always_failing 3 1
   = {| AsyncJobs.ending := AsyncJobs.ReturnedNone; AsyncJobs.calls := 0;
        AsyncJobs.sleeps := [] |})
  /\ (1 <= 3 ->
      AsyncJobs.retry_with_backoff AsyncJobs.a_clock_limit
        AsyncJobs.always_failing 3 1
      = {| AsyncJobs.ending := AsyncJobs.Reraised (Z.to_nat 3 - 1)%nat;
           AsyncJobs.calls := Z.to_nat 3;
           AsyncJobs.sleeps := AsyncJobs.delays 1 (Z.to_nat 3 - 1) |}
      /\ (AsyncJobs.total
            (AsyncJobs.sleeps
               (AsyncJobs.retry_with_backoff AsyncJobs.a_clock_limit
                  AsyncJobs.always_failing 3 1))
          == 1 * (inject_Z (2 ^ (3 - 1)) - 1))%Q).
Proof.
  apply (retry_gives_up_with_last_exception AsyncJobs.a_clock_limit
           AsyncJobs.always_failing (fun j => j) 3 1).
  - intros j _. reflexivity.
  - discriminate.
  - lia.
  - intros [|[|i]] Hi; [discriminate .. | lia].
Defined.

Lemma retry_ends_when_sleep_raises_witness :
  AsyncJobs.retry_with_backoff AsyncJobs.a_clock_limit
    AsyncJobs.always_failing 3 (-1)
  = {| AsyncJobs.ending := AsyncJobs.SleepRaised; AsyncJobs.calls := 1;
       AsyncJobs.sleeps := AsyncJobs.delays (-1) 0 |}.
Proof.
  apply (retry_ends_when_sleep_raises AsyncJobs.a_clock_limit
           AsyncJobs.always_failing (fun j => j) 3 (-1) 0).
  - intros j _. reflexivity.
  - lia.
  - intros i Hi. lia.
  - reflexivity.
Defined.

(** * The rate limit *)

Section RateLimited.

Import RateLimit.

Variables (limit : Z) (window_s : Q).
Hypothesis Hwindow : (0 < window_s)%Q.

Lemma recent_lt now t : recent now window_s t = true <-> (now - t < window_s)%Q.
Proof.
  unfold recent. destruct (Qlt_le_dec (now - t) window_s); split; try done.
  intros. lra.
Qed.

Lemma recent_self now : recent now window_s now = true.
Proof. apply recent_lt. lra. Qed.

Lemma recent_earlier now now' t :
  (now <= now')%Q -> recent now' window_s t = true ->
  recent now window_s t = true.
Proof. rewrite !recent_lt. lra. Qed.

Lemma admitted_snoc user_id log v now r :
  admitted user_id (log ++ [(v, now, r)])
  = admitted user_id log
    ++ (if bool_decide (v = user_id) && negb r then [now] else []).
Proof.
  unfold admitted. rewrite omap_app. f_equal. cbn.
  by destruct (bool_decide (v = user_id) && negb r).
Qed.

Lemma by_the_rule_snoc log (e : entry) :
  by_the_rule limit window_s log ->
  e.2 = bool_decide
          (limit
           <= Z.of_nat (length (fresh e.1.2 window_s (admitted e.1.1 log)))) ->
  by_the_rule limit window_s (log ++ [e]).
Proof.
  intros Hlog He pre user_id now r post Heq.
  destruct post as [|p post _] using rev_ind.
  - apply app_inj_tail in Heq as [-> ->]. exact He.
  - rewrite app_comm_cons, app_assoc in Heq.
    apply app_inj_tail in Heq as [-> _]. by eapply Hlog.
Qed.

Lemma rate_limited_step last _rate_limits log user_id now :
  tracks window_s last _rate_limits log -> (last <= now)%Q ->
  let r := _rate_limited now user_id limit window_s _rate_limits in
  r.2 = bool_decide
          (limit
           <= Z.of_nat (length (fresh now window_s (admitted user_id log))))
  /\ tracks window_s now r.1 (log ++ [(user_id, now, r.2)]).
Proof.
  intros Htr Hlast. destruct (Htr user_id) as (at_call & Hat & Hwin).
  assert (Hfresh : fresh now window_s (default [] (_rate_limits !! user_id))
                   = fresh now window_s (admitted user_id log)).
  { rewrite Hwin. unfold fresh. apply list_filter_filter_l.
    intros t. apply recent_earlier. lra. }
  unfold _rate_limited. cbn zeta.
  change (filter (fun t => recent now window_s t = true)
            (default [] (_rate_limits !! user_id)))
    with (fresh now window_s (default [] (_rate_limits !! user_id))).
  rewrite Hfresh.
  set (kept := fresh now window_s (admitted user_id log)).
  destruct (limit <=? Z.of_nat (length kept)) eqn:Hfull; cbn [fst snd].
  - apply Z.leb_le in Hfull. split; [by rewrite bool_decide_eq_true_2 |].
    intros v. destruct (decide (v = user_id)) as [->|Hne].
    + exists now. split; [lra |].
      rewrite lookup_insert_eq, admitted_snoc. cbn.
      by rewrite andb_false_r, app_nil_r.
    + destruct (Htr v) as (at_v & Hat_v & Hwin_v). exists at_v.
      split; [lra |]. rewrite lookup_insert_ne by done.
      rewrite admitted_snoc, bool_decide_eq_false_2 by done.
      by rewrite app_nil_r.
  - apply Z.leb_gt in Hfull.
    split; [by rewrite bool_decide_eq_false_2 by lia |].
    intros v. destruct (decide (v = user_id)) as [->|Hne].
    + exists now. split; [lra |].
      rewrite lookup_insert_eq, admitted_snoc. cbn.
      rewrite bool_decide_eq_true_2 by done. cbn.
      unfold fresh. rewrite filter_app. f_equal.
      by rewrite filter_cons_True by apply recent_self.
    + destruct (Htr v) as (at_v & Hat_v & Hwin_v). exists at_v.
      split; [lra |]. rewrite lookup_insert_ne by done.
      rewrite admitted_snoc, bool_decide_eq_false_2 by done.
      by rewrite app_nil_r.
Qed.

Lemma serve_by_the_rule requests : forall last _rate_limits log,
  in_order last requests -> tracks window_s last _rate_limits log ->
  by_the_rule limit window_s log ->
  by_the_rule limit window_s
    (serve limit window_s requests _rate_limits log).2
  /\ (fun e : entry => e.1)
       <$> (serve limit window_s requests _rate_limits log).2
     = ((fun e : entry => e.1) <$> log) ++ requests.
Proof.
  induction requests as [|[user_id now] rest IH];
    intros last _rate_limits log Hord Htr Hlog; cbn [serve].
  - split; [exact Hlog | by rewrite app_nil_r].
  - destruct Hord as [Hlast Hrest].
    destruct (rate_limited_step last _rate_limits log user_id now Htr Hlast)
      as [Hr Htr'].
    destruct (IH now _ _ Hrest Htr') as [Hrule Hlogged].
    + apply by_the_rule_snoc; [exact Hlog | exact Hr].
    + split; [exact Hrule |]. rewrite Hlogged, fmap_app. cbn.
      by rewrite <- app_assoc.
Qed.

(** X16.  With a clock that does not go back and a positive window, the
    calls served from an empty dict are all logged in order, and each call
    is refused exactly when at least [limit] earlier calls of the same user
    that were let through lie less than [window_s] seconds before it; calls
    of other users and refused calls do not count. *)
Theorem rate_limit_decides_by_recent_admitted_calls (start : Q)
    (requests : list (Z * Q)) :
  in_order start requests ->
  let log := (serve limit window_s requests ∅ []).2 in
  (fun e : entry => e.1) <$> log = requests
  /\ by_the_rule limit window_s log.
Proof.
  intros Hord.
  destruct (serve_by_the_rule requests start ∅ [] Hord) as [Hrule Hlogged].
  - intros user_id. exists start. split; [lra |]. by rewrite lookup_empty.
  - intros pre user_id now r post Heq. by destruct pre.
  - split; [exact Hlogged | exact Hrule].
Qed.

Lemma filter_all {X} (P : X -> Prop) `{!forall x, Decision (P x)} l :
  Forall P l -> filter P l = l.
Proof.
  induction 1 as [|x l Hx Hl IH]; [done |].
  by rewrite filter_cons_True, IH.
Qed.

Lemma ascending_snoc last now times :
  ascending last times -> (last <= now)%Q -> ascending now (times ++ [now]).
Proof.
  intros [Hle Hord] Hlast. split.
  - intros x [Hx|Hx]%elem_of_app.
    + specialize (Hle x Hx). lra.
    + apply list_elem_of_singleton in Hx as ->. lra.
  - intros i j x y Hij Hi Hj.
    destruct (decide (j < length times)%nat) as [Hj'|Hj'].
    + rewrite lookup_app_l in Hi, Hj by lia. exact (Hord i j x y Hij Hi Hj).
    + rewrite lookup_app_r in Hj by lia.
      destruct (j - length times)%nat as [|n] eqn:Hn; cbn in Hj; [| done].
      injection Hj as <-.
      destruct (decide (i < length times)%nat) as [Hi'|Hi'].
      * rewrite lookup_app_l in Hi by lia.
        assert (x ∈ times) by by eapply list_elem_of_lookup_2.
        specialize (Hle x ltac:(done)). lra.
      * rewrite lookup_app_r in Hi by lia.
        replace (i - length times)%nat with 0%nat in Hi by lia.
        cbn in Hi. injection Hi as <-. lra.
Qed.

Lemma ascending_later last now times :
  ascending last times -> (last <= now)%Q -> ascending now times.
Proof.
  intros [Hle Hord] Hlast. split; [| exact Hord].
  intros x Hx. specialize (Hle x Hx). lra.
Qed.

(** Letting a call through keeps the admitted calls spaced. *)
Lemma spaced_snoc last now times :
  1 <= limit -> ascending last times -> (last <= now)%Q ->
  spaced limit window_s times ->
  Z.of_nat (length (fresh now window_s times)) < limit ->
  spaced limit window_s (times ++ [now]).
Proof.
  intros Hlimit [Hle Hord] Hlast Hsp Hroom i x y Hi Hj.
  destruct (decide (i + Z.to_nat limit < length times)%nat) as [Hin|Hout].
  - rewrite lookup_app_l in Hi, Hj by lia. exact (Hsp i x y Hi Hj).
  - rewrite lookup_app_r in Hj by lia.
    destruct (i + Z.to_nat limit - length times)%nat as [|n] eqn:Hn;
      cbn in Hj; [| done].
    injection Hj as <-.
    rewrite lookup_app_l in Hi by lia.
    destruct (Qlt_le_dec (now - x) window_s) as [Hclose|]; [| done].
    exfalso.
    assert (Hrecent : Forall (fun t => recent now window_s t = true)
                        (drop i times)).
    { apply Forall_lookup. intros k z Hk. rewrite lookup_drop in Hk.
      apply recent_lt.
      assert (x <= z)%Q by (apply (Hord i (i + k)%nat); [lia | done..]).
      lra. }
    assert (Hlen : length (fresh now window_s times)
                   = (length (fresh now window_s (take i times))
                      + length (drop i times))%nat).
    { rewrite <- (take_drop i times) at 1. unfold fresh.
      by rewrite filter_app, length_app, (filter_all _ _ Hrecent). }
    rewrite length_drop in Hlen. lia.
Qed.

Lemma serve_spaced requests : forall last _rate_limits log,
  1 <= limit -> in_order last requests ->
  tracks window_s last _rate_limits log ->
  (forall user_id,
     ascending last (admitted user_id log)
     /\ spaced limit window_s (admitted user_id log)) ->
  forall user_id,
    spaced limit window_s
      (admitted user_id (serve limit window_s requests _rate_limits log).2).
Proof.
  induction requests as [|[caller now] rest IH];
    intros last _rate_limits log Hlimit Hord Htr Hinv; cbn [serve].
  - intros user_id. apply Hinv.
  - destruct Hord as [Hlast Hrest].
    destruct (rate_limited_step last _rate_limits log caller now Htr Hlast)
      as [Hr Htr'].
    apply (IH now _ _ Hlimit Hrest Htr').
    intros user_id. destruct (Hinv user_id) as [Hasc Hsp].
    rewrite admitted_snoc.
    destruct (bool_decide (caller = user_id)
              && negb (_rate_limited now caller limit window_s _rate_limits).2)
      eqn:Hadd.
    + apply andb_true_iff in Hadd as [->%bool_decide_eq_true Hlet].
      apply negb_true_iff in Hlet. rewrite Hlet in Hr.
      symmetry in Hr. apply bool_decide_eq_false in Hr.
      split; [by apply ascending_snoc with last |].
      apply spaced_snoc with last; try done. lia.
    + rewrite app_nil_r. split; [by apply ascending_later with last | done].
Qed.

(** X17.  With a limit of at least 1, a positive window and a clock that
    does not go back, the calls of a user that are let through are never
    too dense: of any [limit + 1] consecutive ones the last is at least
    [window_s] seconds after the first. *)
Theorem rate_limit_spaces_admitted_calls (start : Q)
    (requests : list (Z * Q)) (user_id : Z) :
  1 <= limit -> in_order start requests ->
  spaced limit window_s
    (admitted user_id (serve limit window_s requests ∅ []).2).
Proof.
  intros Hlimit Hord.
  apply (serve_spaced requests start ∅ [] Hlimit Hord).
  - intros v. exists start. split; [lra |]. by rewrite lookup_empty.
  - intros v. split; [split |].
    + by intros x ?%elem_of_nil.
    + by intros i j x y _ ?.
    + by intros i x y ?.
Qed.

End RateLimited.

Lemma rate_limit_spaces_admitted_calls_witness :
  RateLimit.spaced 2 5
    (RateLimit.admitted 5 (RateLimit.serve 2 5 RateLimit.two_callers ∅ []).2).
Proof.
  apply (rate_limit_spaces_admitted_calls 2 5 ltac:(reflexivity) 0).
  - lia.
  - vm_compute. repeat split; discriminate.
Defined.

Lemma rate_limit_decides_by_recent_admitted_calls_witness :
  let log := (RateLimit.serve 2 5 RateLimit.two_callers ∅ []).2 in
  (fun e : RateLimit.entry => e.1) <$> log = RateLimit.two_callers
  /\ RateLimit.by_the_rule 2 5 log.
Proof.
  apply (rate_limit_decides_by_recent_admitted_calls 2 5 ltac:(reflexivity) 0).
  vm_compute. repeat split; discriminate.
Defined.

(** * The in-memory cache *)

Section CacheProperties.

Import MemoryCache.

Context {V : Type}.

(** X18.  A value stored with [set] is returned by [get] for as long as it
    has not expired: for ever when the time to live is 0, and otherwise up
    to and including the instant [ttl] seconds after the [set]; such a [get]
    counts as a hit and leaves the store alone.  A later [get] returns
    nothing, counts as a miss and removes the entry. *)
Theorem cache_get_after_set (now now' : Q) (key : string) (value : V)
    (ttl : Z) (st : State V) :
  (ttl = 0 \/ (now' <= now + inject_Z ttl)%Q ->
   get now' key (set now key value ttl st)
   = ({| _store := _store (set now key value ttl st);
         _hits := S (_hits st); _misses := _misses st |}, Some value))
  /\ (ttl <> 0 -> (now + inject_Z ttl < now')%Q ->
      get now' key (set now key value ttl st)
      = ({| _store := base.delete key (_store st);
            _hits := _hits st; _misses := S (_misses st) |}, None)).
Proof.
  unfold get, set. cbn [_store _hits _misses]. rewrite lookup_insert_eq.
  split.
  - intros [-> | Hlive]; [reflexivity |].
    destruct (ttl =? 0); [reflexivity |].
    destruct (Qlt_le_dec (now + inject_Z ttl) now'); [lra | reflexivity].
  - intros Hne Hlate.
    assert ((ttl =? 0) = false) as -> by lia.
    destruct (Qlt_le_dec (now + inject_Z ttl) now'); [| lra].
    by rewrite delete_insert_eq.
Qed.

Lemma invalidate_fold (keys : list string) : forall (st : State V) k,
  _store (foldl (fun st k => if stale_key k then delete k st else st)
            st keys) !! k
  = if stale_key k && bool_decide (k ∈ keys) then None else _store st !! k.
Proof.
  induction keys as [|key keys IH]; intros st k; cbn [foldl].
  - rewrite bool_decide_eq_false_2 by apply not_elem_of_nil.
    by rewrite andb_false_r.
  - rewrite IH. destruct (stale_key k) eqn:Hk; cbn [andb].
    + destruct (decide (k ∈ keys)) as [Hin|Hout].
      * rewrite !bool_decide_eq_true_2; [done | by right | done].
      * rewrite (bool_decide_eq_false_2 (k ∈ keys)) by done.
        destruct (decide (k = key)) as [->|Hne].
        -- rewrite bool_decide_eq_true_2 by left. rewrite Hk. cbn.
           apply lookup_delete_eq.
        -- rewrite bool_decide_eq_false_2
             by (intros [?|?]%elem_of_cons; done).
           destruct (stale_key key); [| done]. cbn.
           by rewrite lookup_delete_ne.
    + destruct (stale_key key) eqn:Hkey; [| done]. cbn.
      rewrite lookup_delete_ne; [done |]. intros ->. congruence.
Qed.

Lemma invalidate_counters (keys : list string) : forall st : State V,
  _hits (foldl (fun st k => if stale_key k then delete k st else st) st keys)
  = _hits st
  /\ _misses (foldl (fun st k => if stale_key k then delete k st else st)
                st keys)
     = _misses st.
Proof.
  induction keys as [|key keys IH]; intros st; cbn [foldl]; [done |].
  destruct (IH (if stale_key key then delete key st else st)) as [-> ->].
  by destruct (stale_key key).
Qed.

(** X19.  After the cache invalidation of the upload handler no key that
    starts with [curriculum_] or [analytics_] is left in the store, every
    other entry is kept as it was, and the hit and miss counters are
    unchanged. *)
Theorem invalidate_drops_exactly_stale_keys (st : State V) (k : string) :
  _store (invalidate st) !! k
  = (if stale_key k then None else _store st !! k)
  /\ _hits (invalidate st) = _hits st
  /\ _misses (invalidate st) = _misses st.
Proof.
  unfold invalidate. split;
    [| exact (invalidate_counters _ (delete "curriculum_universities" st))].
  rewrite invalidate_fold. cbn [delete _store].
  destruct (stale_key k) eqn:Hk; cbn [andb].
  - case_bool_decide as Hin; [done |].
    destruct (base.delete "curriculum_universities" (_store st) !! k)
      as [v|] eqn:Hv; [| done].
    exfalso. apply Hin. apply list_elem_of_fmap. exists (k, v).
    split; [done |]. by apply elem_of_map_to_list.
  - apply lookup_delete_ne. intros <-. discriminate.
Qed.

End CacheProperties.

Lemma cache_get_after_set_witness :
  (30 = 0 \/ (120 <= 100 + inject_Z 30)%Q ->
   MemoryCache.get 120 "analytics_quizzes" MemoryCache.warm
   = ({| MemoryCache._store := MemoryCache._store MemoryCache.warm;
         MemoryCache._hits := 1; MemoryCache._misses := 0 |},
      Some "summary"%string))
  /\ (30 <> 0 -> (100 + inject_Z 30 < 120)%Q ->
      MemoryCache.get 120 "analytics_quizzes" MemoryCache.warm
      = ({| MemoryCache._store :=
              base.delete "analytics_quizzes"
                (MemoryCache._store
                   (MemoryCache.set 100 "quiz_17" "questions" 0
                      (MemoryCache.set 100 "curriculum_universities" "list"
                         60 MemoryCache.empty)));
            MemoryCache._hits := 0; MemoryCache._misses := 1 |}, None)).
Proof.
  exact (cache_get_after_set 100 120 "analytics_quizzes" "summary"%string 30
           (MemoryCache.set 100 "quiz_17" "questions"%string 0
              (MemoryCache.set 100 "curriculum_universities" "list"%string
                 60 MemoryCache.empty))).
Defined.

(** * White space *)

Section Strip.

Lemma lstrip_head s :
  Py.lstrip s = EmptyString
  \/ exists c r, Py.lstrip s = String c r /\ Py.isspace c = false.
Proof.
  induction s as [|c r IH]; cbn; [by left |].
  destruct (Py.isspace c) eqn:Hc; [exact IH | right; eauto].
Qed.

Lemma lstrip_id c r :
  Py.isspace c = false -> Py.lstrip (String c r) = String c r.
Proof. intros Hc. cbn. by rewrite Hc. Qed.

Lemma rstrip_head c r :
  Py.isspace c = false -> exists r', Py.rstrip (String c r) = String c r'.
Proof.
  intros Hc. cbn. rewrite Hc. destruct (Py.rstrip r); eauto.
Qed.

Lemma rstrip_cons c r :
  Py.rstrip (String c r)
  = match Py.rstrip r with
    | EmptyString =>
        if Py.isspace c then EmptyString else String c EmptyString
    | r' => String c r'
    end.
Proof. reflexivity. Qed.

Lemma rstrip_idemp s : Py.rstrip (Py.rstrip s) = Py.rstrip s.
Proof.
  induction s as [|c r IH]; [done |]. rewrite rstrip_cons.
  destruct (Py.rstrip r) as [|c' r'] eqn:Hr.
  - destruct (Py.isspace c) eqn:Hc; [done |]. cbn. by rewrite Hc.
  - by rewrite rstrip_cons, IH.
Qed.

(** Stripping a stripped string changes nothing. *)
Lemma strip_idemp s : Py.strip (Py.strip s) = Py.strip s.
Proof.
  unfold Py.strip.
  destruct (lstrip_head s) as [-> | (c & r & -> & Hc)]; [done |].
  destruct (rstrip_head c r Hc) as [r' Hr]. rewrite Hr.
  rewrite (lstrip_id c r' Hc), <- Hr. apply rstrip_idemp.
Qed.

End Strip.

(** * The naive extractor *)

Section Extraction.

Import Admin AiParser.

Lemma scan_with_question lines : forall q opts,
  q <> EmptyString -> (length opts <= 4)%nat ->
  scan lines q opts = (q, take 4 (opts ++ lines)).
Proof.
  induction lines as [|l rest IH]; intros q opts Hq Hlen; cbn [scan].
  - rewrite app_nil_r, take_ge by lia. reflexivity.
  - rewrite bool_decide_eq_false_2 by exact Hq. cbn [andb].
    destruct (length opts <? 4)%nat eqn:Hroom.
    + apply Nat.ltb_lt in Hroom.
      rewrite IH; [| exact Hq | rewrite length_app; cbn; lia].
      by rewrite <- app_assoc.
    + apply Nat.ltb_ge in Hroom. rewrite IH by done.
      by rewrite !take_app_le by lia.
Qed.

Lemma scan_no_question lines : forall opts,
  Forall (fun l => Py.endswith_char l "?" = false) lines ->
  (length opts <= 4)%nat ->
  scan lines EmptyString opts = (EmptyString, take 4 (opts ++ lines)).
Proof.
  induction lines as [|l rest IH]; intros opts Hall Hlen; cbn [scan].
  - rewrite app_nil_r, take_ge by lia. reflexivity.
  - inversion Hall as [|? ? Hl Hrest]; subst. rewrite Hl, andb_false_r.
    destruct (length opts <? 4)%nat eqn:Hroom.
    + apply Nat.ltb_lt in Hroom.
      rewrite IH; [| exact Hrest | rewrite length_app; cbn; lia].
      by rewrite <- app_assoc.
    + apply Nat.ltb_ge in Hroom. rewrite IH by done.
      by rewrite !take_app_le by lia.
Qed.

Lemma scan_first_question pre : forall l post opts,
  Forall (fun l => Py.endswith_char l "?" = false) pre ->
  Py.endswith_char l "?" = true -> (length opts <= 4)%nat ->
  scan (pre ++ l :: post) EmptyString opts
  = (l, take 4 (opts ++ pre ++ post)).
Proof.
  induction pre as [|p pre IH]; intros l post opts Hpre Hl Hlen;
    cbn [scan app].
  - rewrite Hl, bool_decide_eq_true_2 by done. cbn [andb].
    apply scan_with_question; [| exact Hlen].
    intros ->. discriminate.
  - inversion Hpre as [|? ? Hp Hrest]; subst. rewrite Hp, andb_false_r.
    destruct (length opts <? 4)%nat eqn:Hroom.
    + apply Nat.ltb_lt in Hroom.
      rewrite IH; [| done.. | rewrite length_app; cbn; lia].
      by rewrite <- app_assoc.
    + apply Nat.ltb_ge in Hroom. rewrite IH by done.
      by rewrite !take_app_le by lia.
Qed.

Lemma first_question_split lines :
  Forall (fun l => Py.endswith_char l "?" = false) lines
  \/ exists pre l post,
       lines = pre ++ l :: post
       /\ Forall (fun l => Py.endswith_char l "?" = false) pre
       /\ Py.endswith_char l "?" = true.
Proof.
  induction lines as [|x rest IH]; [by left |].
  destruct (Py.endswith_char x "?") eqn:Hx.
  - right. exists [], x, rest. by repeat split.
  - destruct IH as [Hall | (pre & l & post & -> & Hpre & Hl)].
    + left. by constructor.
    + right. exists (x :: pre), l, post. repeat split; [| done].
      by constructor.
Qed.

Lemma parse_falls_back openai gemini input_text :
  unavailable openai -> unavailable gemini ->
  Py.strip input_text <> EmptyString ->
  parse_mcqs_with_ai openai gemini input_text
  = naive_parse (Py.strip input_text).
Proof.
  intros Ho Hg Hne. unfold parse_mcqs_with_ai.
  rewrite bool_decide_eq_false_2 by exact Hne.
  destruct openai as [| |r]; [| |by destruct (Ho r)];
    (destruct gemini as [| |r]; [| |by destruct (Hg r)]); reflexivity.
Qed.

(** X20.  When no provider answers, [parse_mcqs_with_ai] finds at most one
    question.  It finds none when no non-blank line ends with a question
    mark or when there are fewer than five non-blank lines.  Otherwise the
    question is the first non-blank line that ends with a question mark and
    its options are the first four of the other non-blank lines, those in
    front of the question included; no answer is inferred. *)
Theorem naive_parse_finds_first_question (openai gemini : provider)
    (input_text : string) :
  unavailable openai -> unavailable gemini ->
  let lines := nonblank_lines (Py.strip input_text) in
  let found := p_questions (parse_mcqs_with_ai openai gemini input_text) in
  (Forall (fun l => Py.endswith_char l "?" = false) lines
   \/ (length lines < 5)%nat -> found = [])
  /\ (forall pre l post,
        lines = pre ++ l :: post ->
        Forall (fun l => Py.endswith_char l "?" = false) pre ->
        Py.endswith_char l "?" = true ->
        (5 <= length lines)%nat ->
        found = [detected l (pre ++ post)]).
Proof.
  intros Ho Hg lines found.
  destruct (decide (Py.strip input_text = EmptyString)) as [Hblank|Hne].
  - assert (Hnone : found = []).
    { subst found. unfold parse_mcqs_with_ai.
      by rewrite bool_decide_eq_true_2. }
    assert (Hlines : lines = []) by (subst lines; by rewrite Hblank).
    split; [done |]. intros pre l post Heq. rewrite Hlines in Heq.
    by destruct pre.
  - subst found. rewrite parse_falls_back by done.
    unfold naive_parse. fold lines. split.
    + intros [Hnoq | Hfew].
      * rewrite scan_no_question by (done || cbn; lia). cbn.
        by rewrite bool_decide_eq_true_2.
      * destruct (first_question_split lines)
          as [Hall | (pre & l & post & Heq & Hpre & Hl)].
        -- rewrite scan_no_question by (done || cbn; lia). cbn.
           by rewrite bool_decide_eq_true_2.
        -- rewrite Heq, scan_first_question by (done || cbn; lia).
           rewrite Heq, length_app in Hfew. cbn in Hfew. cbn [app].
           assert ((4 <=? length (take 4 (pre ++ post)))%nat = false) as ->.
           { apply Nat.leb_gt. rewrite length_take, length_app. lia. }
           by rewrite andb_false_r.
    + intros pre l post Heq Hpre Hl Hmany. rewrite Heq.
      rewrite scan_first_question by (done || cbn; lia). cbn [app].
      rewrite bool_decide_eq_false_2 by (intros ->; discriminate).
      rewrite Heq, length_app in Hmany. cbn in Hmany.
      assert ((4 <=? length (take 4 (pre ++ post)))%nat = true) as ->.
      { apply Nat.leb_le. rewrite length_take, length_app. lia. }
      cbn. unfold detected. by rewrite take_take.
Qed.

End Extraction.

Lemma naive_parse_finds_first_question_witness :
  let lines := AiParser.nonblank_lines (Py.strip AiParser.page) in
  let found :=
    AiParser.p_questions
      (AiParser.parse_mcqs_with_ai AiParser.NoKey AiParser.Failed
         AiParser.page) in
  (Forall (fun l => Py.endswith_char l "?" = false) lines
   \/ (length lines < 5)%nat -> found = [])
  /\ (forall pre l post,
        lines = pre ++ l :: post ->
        Forall (fun l => Py.endswith_char l "?" = false) pre ->
        Py.endswith_char l "?" = true ->
        (5 <= length lines)%nat ->
        found = [AiParser.detected l (pre ++ post)]).
Proof.
  apply (naive_parse_finds_first_question AiParser.NoKey AiParser.Failed
           AiParser.page).
  - intros r. discriminate.
  - intros r. discriminate.
Defined.

(** * From raw text to the commit without any provider *)

Section NoProviderPipeline.

Import Moderation Admin AiParser.

Lemma nonblank_line_stripped input_text l :
  l ∈ nonblank_lines input_text -> Py.strip l = l /\ l <> EmptyString.
Proof.
  unfold nonblank_lines.
  intros (l0 & -> & Hin)%list_elem_of_fmap.
  apply list_elem_of_filter in Hin as [Hne _].
  split; [apply strip_idemp | exact Hne].
Qed.

(** The shape of whatever the naive detector finds. *)
Lemma naive_parse_shape input_text c :
  c ∈ p_questions (naive_parse input_text) ->
  exists l others,
    c = detected l others
    /\ l ∈ nonblank_lines input_text
    /\ Py.endswith_char l "?" = true
    /\ length (take 4 others) = 4%nat
    /\ Forall (fun o => o ∈ nonblank_lines input_text) (take 4 others).
Proof.
  unfold naive_parse.
  destruct (first_question_split (nonblank_lines input_text))
    as [Hall | (pre & l & post & Heq & Hpre & Hl)].
  - rewrite scan_no_question by (done || cbn; lia). cbn.
    rewrite bool_decide_eq_true_2 by done. by intros ?%elem_of_nil.
  - rewrite Heq, scan_first_question by (done || cbn; lia). cbn [app].
    rewrite bool_decide_eq_false_2 by (intros ->; discriminate).
    destruct (4 <=? length (take 4 (pre ++ post)))%nat eqn:Hfour; cbn;
      [| by intros ?%elem_of_nil].
    apply Nat.leb_le in Hfour.
    intros ->%list_elem_of_singleton.
    exists l, (pre ++ post). rewrite take_take.
    split; [reflexivity |].
    split; [apply elem_of_app; right; left |].
    split; [exact Hl |].
    split; [rewrite length_take in *; lia |].
    apply Forall_forall. intros o Ho. apply subseteq_take in Ho.
    apply elem_of_app in Ho as [Ho|Ho]; apply elem_of_app;
      [left | right; right]; exact Ho.
Qed.

(** The heuristic scorer accepts whatever the naive detector builds. *)
Lemma heuristic_accepts_detected l others topic :
  Py.strip l = l -> l <> EmptyString ->
  Py.endswith_char l "?" = true ->
  length (take 4 others) = 4%nat ->
  heuristic (question_data (detected l others) topic)
  = Some {| m_score := Some 75;
            m_comments :=
              Some "Heuristic moderation applied - no AI available."%string;
            m_action := Some "accept"%string |}.
Proof.
  intros Hstrip Hne Hq Hfour.
  unfold heuristic, heuristic_qtext, heuristic_opts, question_data, detected.
  cbn [c_question c_options str_to_py options_to_py].
  change (get_or_none "question" ?d) with (PStr l).
  assert (forall y, py_or (PStr l) y = PStr l) as Hl.
  { intros y. unfold py_or, truthy. by rewrite bool_decide_eq_false_2. }
  rewrite !Hl.
  cbn [mbind option_bind]. rewrite Hstrip, Hq.
  change (get_or_none "options" ?d)
    with (PList (str_to_py <$> (Some <$> take 4 others))).
  destruct (take 4 others) as [|a [|b [|c [|d [|e r]]]]]; try discriminate.
  reflexivity.
Qed.

(** X21.  With no parsing provider and no moderation provider, every
    candidate the upload flow extracts from raw text is accepted by the
    fallback scorer with score 75 and is given the answer letter A; and
    yet, when there is a topic, the commit of the candidate ends in an
    exception, whatever the users table holds. *)
Theorem detected_question_is_accepted_but_not_stored
    (add_and_commit : instance -> DB -> option DB)
    (parse_openai parse_gemini : AiParser.provider)
    (openai gemini : Moderation.provider) (input_text : string)
    (topic : Topic) (tg : option string) (db : DB) (c : Candidate) :
  AiParser.unavailable parse_openai -> AiParser.unavailable parse_gemini ->
  FallbackRule.unavailable openai -> FallbackRule.unavailable gemini ->
  c ∈ p_questions (parse_mcqs_with_ai parse_openai parse_gemini input_text) ->
  moderate_question_with_ai openai gemini (question_data c topic)
  = Some {| m_score := Some 75;
            m_comments :=
              Some "Heuristic moderation applied - no AI available."%string;
            m_action := Some "accept"%string |}
  /\ _map_correct_option (c_correct_answer c) (default [] (c_options c))
     = "A"%string
  /\ _insert_question_with_moderation add_and_commit openai gemini
       (Some topic) c tg db
     = None.
Proof.
  intros Hpo Hpg Ho Hg Hc.
  destruct (decide (Py.strip input_text = EmptyString)) as [He|Hne].
  { unfold parse_mcqs_with_ai in Hc.
    rewrite bool_decide_eq_true_2 in Hc by exact He.
    by apply elem_of_nil in Hc. }
  rewrite parse_falls_back in Hc by assumption.
  apply naive_parse_shape in Hc
    as (l & others & -> & Hl & Hq & Hfour & _).
  apply nonblank_line_stripped in Hl as [Hstrip Hl0].
  assert (Hm := heuristic_accepts_detected l others topic Hstrip Hl0 Hq Hfour).
  rewrite no_provider_runs_heuristic by assumption.
  split; [exact Hm |]. split; [reflexivity |].
  unfold _insert_question_with_moderation.
  rewrite no_provider_runs_heuristic, Hm by assumption.
  cbn [mbind option_bind].
  destruct (scalar_one_or_none _); cbn [mbind option_bind]; [| reflexivity].
  change (action_of _) with "accept"%string.
  rewrite !(bool_decide_eq_false_2 ("accept"%string = _)) by discriminate.
  by rewrite new_question_raises.
Qed.

End NoProviderPipeline.

Lemma detected_question_is_accepted_but_not_stored_witness :
  Moderation.moderate_question_with_ai Moderation.NoKey Moderation.Failed
    (Admin.question_data
       (AiParser.detected "Which nerve supplies the deltoid?"
          ["Anatomy CAT 1"; "Axillary"; "Radial"; "Median"; "Ulnar"]%string)
       Counters.anatomy)
  = Some {| Moderation.m_score := Some 75;
            Moderation.m_comments :=
              Some "Heuristic moderation applied - no AI available."%string;
            Moderation.m_action := Some "accept"%string |}
  /\ Admin._map_correct_option
       (Admin.c_correct_answer
          (AiParser.detected "Which nerve supplies the deltoid?"
             ["Anatomy CAT 1"; "Axillary"; "Radial"; "Median";
              "Ulnar"]%string))
       (default []
          (Admin.c_options
             (AiParser.detected "Which nerve supplies the deltoid?"
                ["Anatomy CAT 1"; "Axillary"; "Radial"; "Median";
                 "Ulnar"]%string)))
     = "A"%string
  /\ Admin._insert_question_with_moderation (fun _ db => Some db)
       Moderation.NoKey Moderation.Failed (Some Counters.anatomy)
       (AiParser.detected "Which nerve supplies the deltoid?"
          ["Anatomy CAT 1"; "Axillary"; "Radial"; "Median"; "Ulnar"]%string)
       (Some "alice"%string) Examples.one_question
     = None.
Proof.
  apply (detected_question_is_accepted_but_not_stored (fun _ db => Some db)
           AiParser.Failed AiParser.NoKey Moderation.NoKey Moderation.Failed
           AiParser.page Counters.anatomy (Some "alice"%string)
           Examples.one_question).
  - intros r. discriminate.
  - intros r. discriminate.
  - intros r. discriminate.
  - intros r. discriminate.
  - vm_compute. apply list_elem_of_here.
Defined.

(** * What the validator hands on *)

Section ValidatedOutput.

Import AIQuestionParser Validated.

Local Ltac run_in H :=
  cbn [mbind outcome_bind as_str clamp_confidence default from_option id negb]
    in H.
Local Ltac run := cbn [mbind outcome_bind as_str clamp_confidence default
                       from_option id negb].

Lemma clean_options_cleaned keys options cleaned :
  clean_options keys options = Done cleaned ->
  length cleaned = length keys ->
  cleaned.*1 = keys
  /\ Forall (fun kv : string * string =>
               stripped kv.2 /\ kv.2 <> EmptyString) cleaned.
Proof.
  revert cleaned. induction keys as [|key rest IH]; intros cleaned Hc Hlen.
  - destruct cleaned; [| discriminate]. by split.
  - cbn [clean_options] in Hc.
    destruct (as_str _) as [s| |]; run_in Hc; try discriminate.
    destruct (clean_options rest options) as [cl| |] eqn:Hrest;
      run_in Hc; try discriminate.
    assert (Hle := clean_options_length rest options cl Hrest).
    case_bool_decide as Hs; injection Hc as <-; cbn in Hlen; [lia |].
    destruct (IH cl eq_refl ltac:(lia)) as [Hkeys Hall].
    split; [cbn; by rewrite Hkeys |].
    constructor; [| exact Hall]. cbn. split; [apply strip_idemp | exact Hs].
Qed.

Lemma clamp_confidence_range v w :
  clamp_confidence v = Done w -> clamped w.
Proof.
  destruct v as [|b|[q| |negative]| | |]; cbn; try discriminate.
  - by intros [= <-].
  - intros [= <-].
    destruct (Qlt_le_dec q 0); cbn.
    + destruct (Qlt_le_dec 1 0); cbn; split; lra.
    + destruct (Qlt_le_dec 1 q); cbn; split; lra.
  - by intros [= <-].
  - intros [= <-]. destruct negative; cbn.
    + destruct (Qlt_le_dec 1 0); cbn; split; lra.
    + split; lra.
Qed.


(** Whatever the loop body accepts is clean. *)
Lemma validate_question_clean i c v :
  validate_question i c = Done v -> clean v.
Proof.
  unfold validate_question. intros Hv.
  destruct (forallb _ _); [| discriminate].
  destruct (default (PDict []) (Dict.get "options" c))
    as [| | | | |options]; try discriminate.
  case_bool_decide as Hlen; [| discriminate].
  destruct (as_str (default (PStr "") (Dict.get "correct_answer" c)))
    as [answer| |]; run_in Hv; try discriminate.
  case_bool_decide as Hletter; [| discriminate].
  destruct (as_str (default (PStr "") (Dict.get "question_text" c)))
    as [text| |]; run_in Hv; try discriminate.
  destruct (String.length (Py.strip text) <? 10)%nat eqn:Hshort;
    run_in Hv; [discriminate |].
  apply Nat.ltb_ge in Hshort.
  destruct (clean_options letters_ABCD options) as [cleaned| |] eqn:Hcl;
    run_in Hv; try discriminate.
  case_bool_decide as Hfour; [| discriminate].
  destruct (as_str (default (PStr "") (Dict.get "explanation" c)))
    as [e| |]; run_in Hv; try discriminate.
  destruct (clamp_confidence _) as [w| |] eqn:Hw;
    cbn [mbind outcome_bind] in Hv; try discriminate.
  injection Hv as <-.
  destruct (clean_options_cleaned _ _ _ Hcl Hfour) as [Hkeys Hall].
  unfold clean. cbn.
  repeat split; try done; try apply strip_idemp.
  by apply clamp_confidence_range in Hw.
Qed.

Lemma validate_from_ids i questions :
  Forall (fun v => Z.of_nat i + 1 <= v_id v
                   <= Z.of_nat i + Z.of_nat (length questions))
    (validate_from i questions)
  /\ StronglySorted Z.lt (v_id <$> validate_from i questions)
  /\ (length (validate_from i questions) <= length questions)%nat.
Proof.
  revert i. induction questions as [|c rest IH]; intros i.
  - cbn. repeat split; constructor.
  - destruct (IH (S i)) as (Hids & Hsorted & Hlen).
    assert (Hids' : Forall (fun v => Z.of_nat i + 2 <= v_id v
                              <= Z.of_nat i + Z.of_nat (length (c :: rest)))
                      (validate_from (S i) rest)).
    { eapply Forall_impl; [exact Hids |]. cbn [length]. intros v. cbn beta. lia. }
    cbn [validate_from].
    destruct (validate_question i c) as [v| |] eqn:Hv.
    + apply validate_question_id in Hv.
      split; [| split].
      * constructor; [cbn [length]; lia |].
        eapply Forall_impl; [exact Hids' |]. intros w. cbn beta. lia.
      * cbn [fmap list_fmap]. constructor; [exact Hsorted |].
        apply Forall_fmap. eapply Forall_impl; [exact Hids' |].
        intros w. cbn. lia.
      * cbn [length]. lia.
    + split; [| split; [exact Hsorted | cbn [length]; lia]].
      eapply Forall_impl; [exact Hids' |]. intros w. cbn beta. lia.
    + split; [| split; [exact Hsorted | cbn [length]; lia]].
      eapply Forall_impl; [exact Hids' |]. intros w. cbn beta. lia.
Qed.

(** X22.  Every question [_validate_questions] hands on is clean: a
    stripped text of at least 10 characters, options A to D in order with
    stripped non-empty texts, an upper-case answer letter, a stripped
    explanation, and a confidence that is a number between 0 and 1, a bool
    or NaN (which the clamp lets through; infinities are clamped).  The
    output is no longer than the input, and its ids are strictly
    increasing positions of the input. *)
Theorem validated_questions_are_clean_and_ordered
    (questions : list (list (string * pyval))) :
  let validated := _validate_questions questions in
  Forall clean validated
  /\ Forall (fun v => 1 <= v_id v <= Z.of_nat (length questions)) validated
  /\ StronglySorted Z.lt (v_id <$> validated)
  /\ (length validated <= length questions)%nat.
Proof.
  cbn zeta. unfold _validate_questions.
  destruct (validate_from_ids 0 questions) as (Hids & Hsorted & Hlen).
  repeat split; try done.
  apply Forall_forall. intros v Hin.
  apply elem_of_validate_from in Hin as (j & c & _ & Hv).
  by apply validate_question_clean in Hv.
Qed.

Lemma clamp_confidence_fixed w :
  clamped w -> clamp_confidence w = Done w.
Proof.
  destruct w as [|b|[q| |negative]| | |]; cbn; try done.
  intros [Hlo Hhi].
  destruct (Qlt_le_dec q 0); [lra |]. cbn.
  destruct (Qlt_le_dec 1 q); [lra | reflexivity].
Qed.

Lemma upper_of_letter s : s ∈ letters_ABCD -> Py.upper s = s.
Proof.
  unfold letters_ABCD. intros H.
  repeat (apply elem_of_cons in H as [->|H]; [reflexivity |]).
  by apply elem_of_nil in H.
Qed.

Lemma clean_options_of_cleaned cleaned :
  cleaned.*1 = letters_ABCD ->
  Forall (fun kv : string * string =>
            stripped kv.2 /\ kv.2 <> EmptyString) cleaned ->
  clean_options letters_ABCD
    ((fun kv : string * string => (kv.1, PStr kv.2)) <$> cleaned)
  = Done cleaned.
Proof.
  intros Hkeys Hall.
  destruct cleaned as [|[ka a] [|[kb b] [|[kc c] [|[kd d] [|e r]]]]];
    try discriminate.
  cbn in Hkeys. injection Hkeys as -> -> -> ->.
  repeat match goal with
         | H : Forall _ (_ :: _) |- _ =>
             apply Forall_cons in H as [[? ?] H]
         end.
  cbn -[Py.strip] in *. unfold stripped in *.
  repeat match goal with
         | |- context [@bool_decide (String ?x ?s = String ?y ?t) ?dec] =>
             let b := eval vm_compute in
                        (@bool_decide (String x s = String y t) dec) in
             change (@bool_decide (String x s = String y t) dec) with b
         end.
  cbn [default from_option id as_str mbind outcome_bind].
  repeat match goal with
         | H : Py.strip ?x = ?x |- _ => rewrite H; clear H
         end.
  by rewrite !bool_decide_eq_false_2.
Qed.

(** The loop body accepts a clean question as it is, under the number of
    its position. *)
Lemma validate_question_of_clean i v :
  clean v -> validate_question i (to_dict v)
             = Done (with_id (Z.of_nat i + 1) v).
Proof.
  intros (Htext & Hlong & Hkeys & Hall & Hletter & Hexp & Hconf).
  unfold validate_question.
  change (forallb _ _) with true. cbn match.
  change (Dict.get "options" (to_dict v))
    with (Some (PDict ((fun kv : string * string => (kv.1, PStr kv.2))
                         <$> v_options v))).
  change (Dict.get "correct_answer" (to_dict v))
    with (Some (PStr (v_correct_answer v))).
  change (Dict.get "question_text" (to_dict v))
    with (Some (PStr (v_question_text v))).
  change (Dict.get "explanation" (to_dict v))
    with (Some (PStr (v_explanation v))).
  change (Dict.get "ai_confidence" (to_dict v))
    with (Some (v_ai_confidence v)).
  cbn [default from_option id].
  assert (Dict.len ((fun kv : string * string => (kv.1, PStr kv.2))
                      <$> v_options v) = 4%nat) as Hlen.
  { unfold Dict.len. rewrite <- list_fmap_compose.
    change (_ ∘ _) with (@fst string string). by rewrite Hkeys. }
  rewrite (bool_decide_eq_true_2 _ Hlen).
  cbn [as_str mbind outcome_bind].
  rewrite (upper_of_letter _ Hletter).
  rewrite (bool_decide_eq_true_2 _ Hletter).
  unfold stripped in Htext, Hexp. rewrite Htext, Hexp.
  apply Nat.ltb_ge in Hlong. rewrite Hlong. cbn [negb].
  rewrite (clean_options_of_cleaned _ Hkeys Hall).
  cbn [mbind outcome_bind].
  rewrite bool_decide_eq_true_2 by (by rewrite <- (length_fmap fst), Hkeys).
  rewrite (clamp_confidence_fixed _ Hconf). reflexivity.
Qed.

Lemma validate_from_of_clean i vs :
  Forall clean vs -> validate_from i (to_dict <$> vs) = renumber_from i vs.
Proof.
  intros Hall. revert i.
  induction Hall as [|v vs Hv _ IH]; intros i; [reflexivity |].
  cbn [fmap list_fmap validate_from renumber_from].
  change (list_fmap _ _ to_dict vs) with (to_dict <$> vs).
  by rewrite (validate_question_of_clean i v Hv), IH.
Qed.

(** X23.  Validation is idempotent up to numbering: run on its own output,
    [_validate_questions] drops nothing and changes no field other than
    the id, which becomes the position in the list. *)
Theorem validating_validated_questions_only_renumbers
    (questions : list (list (string * pyval))) :
  _validate_questions (to_dict <$> _validate_questions questions)
  = renumber (_validate_questions questions).
Proof.
  unfold _validate_questions at 1. unfold renumber.
  apply validate_from_of_clean.
  apply Forall_forall. intros v Hin.
  apply elem_of_validate_from in Hin as (j & c & _ & Hv).
  by apply validate_question_clean in Hv.
Qed.

End ValidatedOutput.

(** * Contributor statistics after a moderation decision *)

Section ContributorStats.

Import AnalyticsService.

Lemma sum_between lo hi (scores : list Z) :
  Forall (fun s => lo <= s <= hi) scores ->
  lo * Z.of_nat (length scores) <= foldr Z.add 0 scores
  <= hi * Z.of_nat (length scores).
Proof.
  induction 1 as [|s scores Hs _ IH]; cbn [foldr length]; lia.
Qed.

(** X24.  [update_contributor_stats] touches one row of the users table and
    nothing else.  In that row the three decision counters together grow by
    one when the label is "approved", "flagged" or "rejected" and stay as
    they are for every other label; the stored average either stays or
    becomes a value between the lowest and the highest score of the
    uploader's scored questions. *)
Theorem contributor_stats_touch_one_row (user_id question_id : Z)
    (action : string) (db : DB) (user : User) (lo hi : Z) :
  users db !! user_id = Some user ->
  Forall (fun s => lo <= s <= hi) (uploader_scores user_id (questions db)) ->
  let db' := update_contributor_stats user_id question_id action db in
  batches db' = batches db
  /\ questions db' = questions db
  /\ (forall k, k <> user_id -> users db' !! k = users db !! k)
  /\ exists user',
       users db' !! user_id = Some user'
       /\ username user' = username user
       /\ first_name user' = first_name user
       /\ upload_count user' = upload_count user
       /\ Py.int_or0 (approved_count user') + Py.int_or0 (flagged_count user')
          + Py.int_or0 (rejected_count user')
          = Py.int_or0 (approved_count user) + Py.int_or0 (flagged_count user)
            + Py.int_or0 (rejected_count user)
            + (if bool_decide
                    (action ∈ ["approved"; "flagged"; "rejected"]%string)
               then 1 else 0)
       /\ (average_moderation_score user' = average_moderation_score user
           \/ exists average,
                average_moderation_score user' = Some average
                /\ lo <= average <= hi).
Proof.
  intros Hu Hscores. cbn zeta. unfold update_contributor_stats. rewrite Hu.
  set (counted :=
         if bool_decide (action = "approved"%string) then _ else _).
  set (user' := match questions db !! question_id with
                | Some _ => _ | None => _ end).
  cbn [batches questions users set_users].
  split; [reflexivity |]. split; [reflexivity |].
  split; [by intros k Hk; rewrite lookup_insert_ne |].
  exists user'. split; [by rewrite lookup_insert_eq |].
  assert (Hcounted :
    username counted = username user
    /\ first_name counted = first_name user
    /\ upload_count counted = upload_count user
    /\ Py.int_or0 (approved_count counted) + Py.int_or0 (flagged_count counted)
       + Py.int_or0 (rejected_count counted)
       = Py.int_or0 (approved_count user) + Py.int_or0 (flagged_count user)
         + Py.int_or0 (rejected_count user)
         + (if bool_decide
                 (action ∈ ["approved"; "flagged"; "rejected"]%string)
            then 1 else 0)
    /\ average_moderation_score counted = average_moderation_score user).
  { unfold counted.
    assert (Hin : forall a : string,
              a ∈ ["approved"; "flagged"; "rejected"]%string
              <-> a = "approved"%string \/ a = "flagged"%string
                  \/ a = "rejected"%string).
    { intros a. rewrite !elem_of_cons, elem_of_nil. tauto. }
    destruct (decide (action = "approved"%string)) as [->|H1];
      [| destruct (decide (action = "flagged"%string)) as [->|H2];
         [| destruct (decide (action = "rejected"%string)) as [->|H3]]].
    - rewrite (bool_decide_eq_true_2 (_ ∈ _)) by (apply Hin; auto).
      repeat first
        [ rewrite (bool_decide_eq_true_2 (_ = _)) by reflexivity
        | rewrite (bool_decide_eq_false_2 (_ = _)) by discriminate ].
      unfold bump, Py.int_or0. cbn. repeat split; try done. lia.
    - rewrite (bool_decide_eq_true_2 (_ ∈ _)) by (apply Hin; auto).
      repeat first
        [ rewrite (bool_decide_eq_true_2 (_ = _)) by reflexivity
        | rewrite (bool_decide_eq_false_2 (_ = _)) by discriminate ].
      unfold bump, Py.int_or0. cbn. repeat split; try done. lia.
    - rewrite (bool_decide_eq_true_2 (_ ∈ _)) by (apply Hin; auto).
      repeat first
        [ rewrite (bool_decide_eq_true_2 (_ = _)) by reflexivity
        | rewrite (bool_decide_eq_false_2 (_ = _)) by discriminate ].
      unfold bump, Py.int_or0. cbn. repeat split; try done. lia.
    - rewrite (bool_decide_eq_false_2 (_ ∈ _)) by (rewrite Hin; tauto).
      rewrite !bool_decide_eq_false_2 by assumption.
      repeat split; try done. lia. }
  destruct Hcounted as (Hn & Hf & Hup & Hsum & Havg).
  assert (Hsame :
    username user' = username counted
    /\ first_name user' = first_name counted
    /\ upload_count user' = upload_count counted
    /\ approved_count user' = approved_count counted
    /\ flagged_count user' = flagged_count counted
    /\ rejected_count user' = rejected_count counted
    /\ (average_moderation_score user' = average_moderation_score counted
        \/ exists average,
             average_moderation_score user' = Some average
             /\ lo <= average <= hi)).
  { subst user'.
    destruct (questions db !! question_id) as [question|];
      [| repeat split; auto].
    destruct (Py.int_truthy (moderation_score question));
      [| repeat split; auto].
    destruct (bool_decide (uploader_scores user_id (questions db) = []))
      eqn:Hempty; [repeat split; auto |].
    apply bool_decide_eq_false in Hempty.
    repeat split; try done. right. eexists. split; [reflexivity |].
    apply round_div_between; [| by apply sum_between].
    destruct (uploader_scores user_id (questions db)); [done | cbn; lia]. }
  destruct Hsame as (-> & -> & -> & -> & -> & -> & Hav).
  repeat split; try done.
  destruct Hav as [-> | Hav]; [left; exact Havg | right; exact Hav].
Qed.

End ContributorStats.

Lemma contributor_stats_touch_one_row_witness :
  let db' :=
    AnalyticsService.update_contributor_stats 7 50 "approved"
      Examples.two_batches in
  batches db' = batches Examples.two_batches
  /\ questions db' = questions Examples.two_batches
  /\ (forall k, k <> 7 -> users db' !! k = users Examples.two_batches !! k)
  /\ exists user',
       users db' !! 7 = Some user'
       /\ username user' = username (Examples.no_counts "alice")
       /\ first_name user' = first_name (Examples.no_counts "alice")
       /\ upload_count user' = upload_count (Examples.no_counts "alice")
       /\ Py.int_or0 (approved_count user') + Py.int_or0 (flagged_count user')
          + Py.int_or0 (rejected_count user')
          = Py.int_or0 (approved_count (Examples.no_counts "alice"))
            + Py.int_or0 (flagged_count (Examples.no_counts "alice"))
            + Py.int_or0 (rejected_count (Examples.no_counts "alice"))
            + (if bool_decide
                    ("approved"%string
                       ∈ ["approved"; "flagged"; "rejected"]%string)
               then 1 else 0)
       /\ (average_moderation_score user'
           = average_moderation_score (Examples.no_counts "alice")
           \/ exists average,
                average_moderation_score user' = Some average
                /\ 55 <= average <= 55).
Proof.
  apply (contributor_stats_touch_one_row 7 50 "approved" Examples.two_batches
           (Examples.no_counts "alice") 55 55).
  - vm_compute. reflexivity.
  - vm_compute. repeat constructor; discriminate.
Defined.

(** * Commits when no moderation provider answers *)

Section NoProviderCommit.

Import Moderation Admin FallbackRule.

(** The heuristic has two verdicts only. *)
Lemma heuristic_verdicts question_data m :
  heuristic question_data = Some m ->
  (m_score m = Some 75 /\ action_of m = "accept"%string)
  \/ (m_score m = Some 50 /\ action_of m = "flag"%string).
Proof.
  unfold heuristic. intros H.
  destruct (heuristic_qtext question_data) as [qtext|];
    cbn [mbind option_bind] in H; [| discriminate].
  destruct (Py.endswith_char qtext "?").
  - destruct (py_len (heuristic_opts question_data)) as [n|];
      cbn [mbind option_bind] in H; [| discriminate].
    destruct (4 <=? n)%nat; injection H as <-; [left | right]; by split.
  - injection H as <-. right. by split.
Qed.

Variable add_and_commit : instance -> DB -> option DB.

(** With the heuristic as scorer the commit path always ends in an
    exception when there is a topic: the verdict is accept or flag, and
    both reach the call of the constructor. *)
Lemma no_provider_insert_raises openai gemini topic q tg db :
  unavailable openai -> unavailable gemini ->
  _insert_question_with_moderation add_and_commit openai gemini (Some topic)
    q tg db
  = None.
Proof.
  intros Ho Hg. unfold _insert_question_with_moderation.
  rewrite no_provider_runs_heuristic by assumption.
  destruct (heuristic (question_data q topic)) as [m|] eqn:Hm;
    cbn [mbind option_bind]; [| reflexivity].
  destruct (scalar_one_or_none _); cbn [mbind option_bind]; [| reflexivity].
  apply heuristic_verdicts in Hm as [[_ Ha]|[_ Ha]]; rewrite Ha;
    rewrite (bool_decide_eq_false_2 (_ = "reject"%string)) by discriminate;
    by rewrite new_question_raises.
Qed.

(** X25.  When no moderation provider answers and there is a topic, the
    confirmation of a candidate by an admin never stores or counts
    anything, not even a rejection: the database stays exactly as it was,
    the reviewer is told that something went wrong and then "Uploaded", and
    the review index moves on to the next candidate. *)
Theorem no_provider_confirm_stores_nothing (openai gemini : provider)
    (topic : Topic) (candidates : list Candidate) (idx : nat)
    (q : Candidate) (tg : option string) (db : DB) :
  unavailable openai -> unavailable gemini ->
  candidates !! idx = Some q ->
  admin_review_confirm add_and_commit true openai gemini (Some topic)
    candidates idx tg db
  = {| r_db := db; r_index := S idx;
       r_replies := [something_went_wrong; uploaded] |}.
Proof.
  intros Ho Hg Hq. unfold admin_review_confirm. cbn [negb].
  by rewrite Hq, no_provider_insert_raises.
Qed.

End NoProviderCommit.

Lemma no_provider_confirm_stores_nothing_witness :
  Admin.admin_review_confirm (fun _ db => Some db) true Moderation.NoKey
    Moderation.Failed (Some Counters.anatomy)
    [Counters.mcq "Name the nerve of the deltoid." None] 0
    (Some "alice"%string) Examples.one_question
  = {| Admin.r_db := Examples.one_question; Admin.r_index := 1;
       Admin.r_replies := [Admin.something_went_wrong; Admin.uploaded] |}.
Proof.
  apply (no_provider_confirm_stores_nothing (fun _ db => Some db)
           Moderation.NoKey Moderation.Failed Counters.anatomy
           [Counters.mcq "Name the nerve of the deltoid." None] 0
           (Counters.mcq "Name the nerve of the deltoid." None)
           (Some "alice"%string) Examples.one_question).
  - intros r. discriminate.
  - intros r. discriminate.
  - reflexivity.
Defined.
